(** * prysm: hot-state generation, slashing detection and hash utilities

    A shallow embedding of
      - [shared/hashutil/hash.go]              (module [hashutil]),
      - [beacon-chain/state/stategen/hot.go]
        and [.../stategen/setter.go]           (module [stategen]),
      - [slasher/detection/detect.go]          (module [detection]),
    together with the properties the specification states about them.

    Conventions.  A Go [uint64] is an [N] whose wrap-around is written out
    where the code can overflow; a [[32]byte] array and a [[]byte] slice are
    lists of bytes; a Go pointer that may be nil is an [option]; a function
    returning [(value, error)] returns a pair whose second component is an
    [option Error]; tracing spans, log lines and metric counters do not act
    on the modelled state and are left out. *)

From Stdlib Require Import NArith Lia List String.
From Stdlib.Strings Require Import Byte.
From stdpp Require Import base option list gmap strings.
From Equations Require Import Equations.

Local Open Scope N_scope.

(** ** Go values shared by the three packages *)

Abbreviation uint64 := N (only parsing).
Abbreviation Bytes32 := (list byte) (only parsing).

(** Arithmetic on [uint64] wraps modulo 2^64. *)
Definition wrap64 (n : N) : N := n mod 2 ^ 64.

#[global] Instance byte_eq_dec : EqDecision byte := Byte.byte_eq_dec.
#[global] Program Instance byte_countable : Countable byte :=
  inj_countable' Byte.to_N (λ n, default x00 (Byte.of_N n)) _.
Next Obligation. by rewrite Byte.of_to_N. Qed.

(** [bytesutil.ToBytes32]: copy a slice into a zeroed 32-byte array, so a
    longer slice is cut and a shorter one is padded with zeros. *)
Definition ToBytes32 (x : list byte) : Bytes32 :=
  take 32 x ++ replicate (32 - length x) x00.

(** The error values the three packages return. *)
Inductive Error : Type :=
| errUnknownStateSummary
| errUnknownBoundaryState
| ErrNilProto
| errNew (msg : string)
| errWrap (cause : Error) (msg : string).

#[global] Instance Error_eq_dec : EqDecision Error.
Proof. solve_decision. Defined.

(** What a call comes to: a value, a returned error, or a run-time panic
    (a nil pointer dereference). *)
Inductive Outcome (A : Type) : Type :=
| Ok (a : A)
| Err (e : Error)
| Panic.
Arguments Ok {A} a.
Arguments Err {A} e.
Arguments Panic {A}.

(** ** shared/hashutil *)

Module hashutil.

Section Hashutil.

(** The digest of the pooled sha256 hasher after [Reset] and [Write data]
    (github.com/minio/sha256-simd, an external package). *)
Variable sha256 : list byte → Bytes32.

(** [Hash]: the hasher is reset before use, so the pool carries nothing
    from one call to the next; [h.Sum(b[:0])] leaves the digest in [b]. *)
Definition Hash (data : list byte) : Bytes32 := sha256 data.

(** [RepeatHash], recursive on [numTimes] as in the source. *)
Equations? RepeatHash (data : Bytes32) (numTimes : uint64) : Bytes32
  by wf (N.to_nat numTimes) lt :=
  RepeatHash data numTimes with N.eq_dec numTimes 0 := {
    | left _ => data
    | right _ => RepeatHash (Hash data) (numTimes - 1) }.
Proof. lia. Defined.

(** The iteration read off the documentation rather than the code: [Hash]
    applied [numTimes] times in a row, starting from [data]. *)
Definition iterated_Hash (numTimes : N) (data : Bytes32) : Bytes32 :=
  N.iter numTimes Hash data.

(** A protobuf message type and [proto.Marshal] on it (external): it
    yields the encoding, returns an error, or panics on a message that
    holds nil pointers. *)
Context {Msg : Type}.
Variable Marshal : Msg → Outcome (list byte).

(** [HashProto]; a recovered panic leaves the named result at its zero
    value and sets [err] to [ErrNilProto]. *)
Definition HashProto (msg : option Msg) : Bytes32 * option Error :=
  match msg with
  | None => (replicate 32 x00, Some ErrNilProto)
  | Some m =>
      match Marshal m with
      | Panic => (replicate 32 x00, Some ErrNilProto)
      | Err e => (replicate 32 x00, Some e)
      | Ok data => (Hash data, None)
      end
  end.

End Hashutil.

End hashutil.

(** ** beacon-chain/state/stategen *)

Module stategen.

(** *** Data *)

(** [state.BeaconState] (its package is not among the sources): the slot
    and the remaining contents, which the functions below never inspect. *)
Record BeaconState : Type := { st_slot : uint64; st_body : list byte }.

(** [pb.StateSummary], the checkpoint pointer [{slot, root}]. *)
Record StateSummary : Type := { summary_Slot : uint64; summary_Root : list byte }.

(** [ethpb.SignedBeaconBlock], as far as the data model names it. *)
Record Block : Type :=
  { blk_Slot : uint64; blk_ParentRoot : Bytes32; blk_Body : list byte }.

#[global] Instance BeaconState_eq_dec : EqDecision BeaconState.
Proof. solve_decision. Defined.
#[global] Instance StateSummary_eq_dec : EqDecision StateSummary.
Proof. solve_decision. Defined.
#[global] Instance Block_eq_dec : EqDecision Block.
Proof. solve_decision. Defined.

(** A [*state.BeaconState] is nil or the address of a state object; the
    objects live in a heap indexed by address, so that two pointers to one
    object see each other's writes. *)
Abbreviation Ptr := (option nat) (only parsing).
Abbreviation Heap := (list BeaconState) (only parsing).

Definition deref (h : Heap) (p : Ptr) : option BeaconState :=
  match p with
  | Some l => h !! l
  | None => None
  end.

Definition alloc (h : Heap) (st : BeaconState) : Heap * Ptr :=
  (h ++ [st], Some (length h)).

(** An in-place write through a pointer. *)
Definition store (h : Heap) (p : Ptr) (st : BeaconState) : Heap :=
  match p with
  | Some l => <[l := st]> h
  | None => h
  end.

(** *** The hot state cache *)

(** Modelled from the spec: the Hot State Cache ([hotStateCache], whose
    source file is absent) is a bounded map from block root to snapshot with
    recency-based eviction, kept here most recently used first.  [Has] tells
    whether a root is present and [Get] hands out an owned copy of the
    entry.  [Put] files the pointer it is handed (move-in on [Put]): the
    callers in hot.go are the ones that copy, [loadHotStateByRoot] passing
    [hotState.Copy()] "because the reference also returned in the end",
    which a [Put] that copied by itself would make pointless. *)
Module HotStateCache.

Abbreviation t := (list (Bytes32 * Ptr)) (only parsing).

Fixpoint lookup (c : t) (root : Bytes32) : option Ptr :=
  match c with
  | [] => None
  | (r, p) :: c' => if decide (r = root) then Some p else lookup c' root
  end.

Definition remove (c : t) (root : Bytes32) : t :=
  filter (λ e, e.1 ≠ root) c.

Definition Has (c : t) (root : Bytes32) : bool :=
  bool_decide (is_Some (lookup c root)).

Definition Put (size : positive) (c : t) (root : Bytes32) (p : Ptr) : t :=
  take (Pos.to_nat size) ((root, p) :: remove c root).

(** [Get] returns the cache, the heap and the pointer handed out: a hit
    moves the entry to the front and allocates the copy. *)
Definition Get (c : t) (h : Heap) (root : Bytes32) : t * Heap * Ptr :=
  match lookup c root with
  | None => (c, h, None)
  | Some p =>
      let c' := (root, p) :: remove c root in
      match deref h p with
      | None => (c', h, None)
      | Some st => let '(h', q) := alloc h st in (c', h', q)
      end
  end.

End HotStateCache.

(** *** The store *)

(** Modelled from the spec: the persistent store behind [beaconDB] (its
    package is absent) holds full snapshots and checkpoint pointers under
    keys that are the block root, and the blocks by root. *)
Record DB : Type := {
  db_states : gmap Bytes32 BeaconState;
  db_summaries : gmap Bytes32 StateSummary;
  db_blocks : gmap Bytes32 Block
}.

(** The [State] service ([splitInfo], [beaconDB], [hotStateCache]) and the
    heap its state pointers refer to. *)
Record World : Type := {
  heap : Heap;
  hotStateCache : HotStateCache.t;
  beaconDB : DB;
  splitInfo_slot : uint64
}.

Definition set_heap (h : Heap) (w : World) : World :=
  {| heap := h; hotStateCache := hotStateCache w;
     beaconDB := beaconDB w; splitInfo_slot := splitInfo_slot w |}.

Definition set_hotStateCache (c : HotStateCache.t) (w : World) : World :=
  {| heap := heap w; hotStateCache := c;
     beaconDB := beaconDB w; splitInfo_slot := splitInfo_slot w |}.

Definition set_beaconDB (d : DB) (w : World) : World :=
  {| heap := heap w; hotStateCache := hotStateCache w;
     beaconDB := d; splitInfo_slot := splitInfo_slot w |}.

(** *** What the package takes from elsewhere *)

(** The chain configuration, the store's I/O failures and the methods of
    [State] defined in files that are not among the sources.  A store call
    that fails returns the fault's error and writes nothing.  The loaders
    read the store and may allocate; replay works on the heap. *)
Class Collaborators : Type := {
  SlotsPerEpoch : positive;
  hotStateCacheSize : positive;
  SaveState_fault : DB → BeaconState → Bytes32 → option Error;
  SaveStateSummary_fault : DB → StateSummary → option Error;
  StateSummary_fault : DB → Bytes32 → option Error;
  lastSavedState : DB → Heap → uint64 → Heap * Ptr * option Error;
  lastSavedBlock : DB → uint64 → Bytes32 * uint64 * option Error;
  LoadBlocks : DB → uint64 → uint64 → Bytes32 → list Block * option Error;
  ReplayBlocks : Heap → Ptr → list Block → uint64 → Heap * Ptr * option Error;
  saveColdState : Bytes32 → Ptr → World → World * Outcome unit
}.

(** *** Calls as state transformers *)

Definition M (A : Type) : Type := World → World * Outcome A.

Definition ret {A : Type} (a : A) : M A := λ w, (w, Ok a).
Definition throw {A : Type} (e : Error) : M A := λ w, (w, Err e).

Definition bind {A B : Type} (m : M A) (k : A → M B) : M B :=
  λ w, match m w with
       | (w', Ok a) => k a w'
       | (w', Err e) => (w', Err e)
       | (w', Panic) => (w', Panic)
       end.

Declare Scope go_scope.
Delimit Scope go_scope with go.
Notation "'let*' x ':=' m 'in' k" := (bind m (λ x, k))
  (at level 10, x pattern, m at level 100, k at level 200) : go_scope.
Notation "m ;; k" := (bind m (λ _, k))
  (at level 100, right associativity) : go_scope.
Local Open Scope go_scope.

(** [if err != nil { return err }] *)
Definition check (err : option Error) : M unit :=
  match err with
  | Some e => throw e
  | None => ret tt
  end.

(** [if err != nil { return errors.Wrap(err, msg) }] *)
Definition check_wrap (err : option Error) (msg : string) : M unit :=
  match err with
  | Some e => throw (errWrap e msg)
  | None => ret tt
  end.

(** [state.Slot()]: reads through the pointer, so nil panics. *)
Definition Slot (state : Ptr) : M uint64 :=
  λ w, match deref (heap w) state with
       | Some st => (w, Ok (st_slot st))
       | None => (w, Panic)
       end.

(** [state.Copy()]: a new object with the same contents. *)
Definition Copy (state : Ptr) : M Ptr :=
  λ w, match deref (heap w) state with
       | Some st => let '(h, q) := alloc (heap w) st in (set_heap h w, Ok q)
       | None => (w, Panic)
       end.

(** Writing the slot of a state in place, through a pointer. *)
Definition SetSlot (state : Ptr) (val : uint64) : M unit :=
  λ w, match deref (heap w) state with
       | Some st =>
           (set_heap (store (heap w) state
                        {| st_slot := val; st_body := st_body st |}) w, Ok tt)
       | None => (w, Panic)
       end.

Section Service.

Context `{!Collaborators}.

(** Modelled from the spec: [helpers.SlotToEpoch], [helpers.StartSlot] and
    [helpers.IsEpochStart] (package [core/helpers] is absent): an epoch is
    [SlotsPerEpoch] slots long, and a slot begins a new epoch when it is a
    multiple of the epoch length. *)
Definition SlotToEpoch (slot : uint64) : uint64 := slot / Npos SlotsPerEpoch.

Definition StartSlot (epoch : uint64) : uint64 := wrap64 (epoch * Npos SlotsPerEpoch).

Definition IsEpochStart (slot : uint64) : bool := slot mod Npos SlotsPerEpoch =? 0.

(** [s.hotStateCache.Has], [.Get] and [.Put]. *)
Definition hotStateCache_Has (root : Bytes32) : M bool :=
  λ w, (w, Ok (HotStateCache.Has (hotStateCache w) root)).

Definition hotStateCache_Get (root : Bytes32) : M Ptr :=
  λ w, let '(c, h, p) := HotStateCache.Get (hotStateCache w) (heap w) root in
       (set_heap h (set_hotStateCache c w), Ok p).

Definition hotStateCache_Put (root : Bytes32) (state : Ptr) : M unit :=
  λ w, (set_hotStateCache
          (HotStateCache.Put hotStateCacheSize (hotStateCache w) root state) w,
        Ok tt).

(** [s.beaconDB.SaveState]: the store keeps the contents of the state, not
    the pointer. *)
Definition beaconDB_SaveState (state : Ptr) (blockRoot : Bytes32) : M (option Error) :=
  λ w, match deref (heap w) state with
       | None => (w, Panic)
       | Some st =>
           let d := beaconDB w in
           match SaveState_fault d st blockRoot with
           | Some e => (w, Ok (Some e))
           | None =>
               (set_beaconDB
                  {| db_states := <[blockRoot := st]> (db_states d);
                     db_summaries := db_summaries d;
                     db_blocks := db_blocks d |} w, Ok None)
           end
       end.

(** [s.beaconDB.SaveStateSummary]: the pointer is filed under its root. *)
Definition beaconDB_SaveStateSummary (summary : StateSummary) : M (option Error) :=
  λ w, let d := beaconDB w in
       match SaveStateSummary_fault d summary with
       | Some e => (w, Ok (Some e))
       | None =>
           (set_beaconDB
              {| db_states := db_states d;
                 db_summaries := <[summary_Root summary := summary]> (db_summaries d);
                 db_blocks := db_blocks d |} w, Ok None)
       end.

(** [s.beaconDB.StateSummary]: nil when no pointer is filed under the root. *)
Definition beaconDB_StateSummary (blockRoot : Bytes32)
  : M (option StateSummary * option Error) :=
  λ w, let d := beaconDB w in
       match StateSummary_fault d blockRoot with
       | Some e => (w, Ok (None, Some e))
       | None => (w, Ok (db_summaries d !! blockRoot, None))
       end.

(** [s.splitInfo.slot] *)
Definition splitInfo_slot_read : M uint64 :=
  λ w, (w, Ok (splitInfo_slot w)).

(** The absent methods of [State], called on the current world. *)
Definition call_lastSavedState (slot : uint64) : M (Ptr * option Error) :=
  λ w, let '(h, p, err) := lastSavedState (beaconDB w) (heap w) slot in
       (set_heap h w, Ok (p, err)).

Definition call_lastSavedBlock (slot : uint64) : M (Bytes32 * uint64 * option Error) :=
  λ w, (w, Ok (lastSavedBlock (beaconDB w) slot)).

Definition call_LoadBlocks (startSlot endSlot : uint64) (endBlockRoot : Bytes32)
  : M (list Block * option Error) :=
  λ w, (w, Ok (LoadBlocks (beaconDB w) startSlot endSlot endBlockRoot)).

Definition call_ReplayBlocks (state : Ptr) (blks : list Block) (targetSlot : uint64)
  : M (Ptr * option Error) :=
  λ w, let '(h, p, err) := ReplayBlocks (heap w) state blks targetSlot in
       (set_heap h w, Ok (p, err)).

(** *** hot.go *)

Definition saveHotState (blockRoot : Bytes32) (state : Ptr) : M unit :=
  let* has := hotStateCache_Has blockRoot in
  if has then ret tt else
  let* slot := Slot state in
  (if IsEpochStart slot then
     let* err := beaconDB_SaveState state blockRoot in
     check err
   else ret tt) ;;
  let* slot := Slot state in
  let* err := beaconDB_SaveStateSummary
                {| summary_Slot := slot; summary_Root := blockRoot |} in
  check err ;;
  hotStateCache_Put blockRoot state ;;
  ret tt.

Definition loadHotStateByRoot (blockRoot : Bytes32) : M Ptr :=
  let* cachedState := hotStateCache_Get blockRoot in
  if cachedState is Some _ then ret cachedState else
  let* (summary, err) := beaconDB_StateSummary blockRoot in
  check err ;;
  match summary with
  | None => throw errUnknownStateSummary
  | Some summary =>
      let* (startState, err) :=
        call_lastSavedState (StartSlot (SlotToEpoch (summary_Slot summary))) in
      check err ;;
      if startState is None then throw errUnknownBoundaryState else
      let targetSlot := summary_Slot summary in
      let* startSlot := Slot startState in
      let* hotState :=
        (if targetSlot =? startSlot then ret startState
         else
           let* (blks, err) :=
             call_LoadBlocks (wrap64 (startSlot + 1)) targetSlot
               (ToBytes32 (summary_Root summary)) in
           check_wrap err "could not load blocks for hot state using root" ;;
           let* (hotState, err) := call_ReplayBlocks startState blks targetSlot in
           check_wrap err "could not replay blocks for hot state using root" ;;
           ret hotState) in
      let* copy := Copy hotState in
      hotStateCache_Put blockRoot copy ;;
      ret hotState
  end.

(** The error of [lastSavedState] is assigned and then overwritten by the
    next call's, as in the source. *)
Definition loadHotStateBySlot (slot : uint64) : M Ptr :=
  let* (startState, err) := call_lastSavedState slot in
  let* (lastValidRoot, lastValidSlot, err) := call_lastSavedBlock slot in
  check_wrap err "could not get last valid block for hot state using slot" ;;
  let* startSlot := Slot startState in
  let* (replayBlks, err) :=
    call_LoadBlocks (wrap64 (startSlot + 1)) lastValidSlot lastValidRoot in
  check err ;;
  let* (hotState, err) := call_ReplayBlocks startState replayBlks slot in
  check err ;;
  ret hotState.

(** *** setter.go *)

Definition SaveState (root : Bytes32) (state : Ptr) : M unit :=
  let* slot := Slot state in
  let* split := splitInfo_slot_read in
  if slot <? split then saveColdState root state
  else saveHotState root state.

End Service.

End stategen.

(** ** slasher/detection *)

Module detection.

(** *** Data *)

(** The messages of [ethpb] as far as the detection code reads them; a
    field that is a pointer to a message may be nil. *)
Record Checkpoint : Type := { Epoch : uint64; Root : list byte }.

Record AttestationData : Type := {
  att_Slot : uint64;
  CommitteeIndex : uint64;
  BeaconBlockRoot : list byte;
  Source : option Checkpoint;
  Target : option Checkpoint
}.

Record IndexedAttestation : Type := {
  AttestingIndices : list uint64;
  Data : option AttestationData;
  Signature : list byte
}.

(** The attestation handed in and the ones read from the store are taken to
    be non-nil pointers, so a slashing holds two attestations. *)
Record AttesterSlashing : Type := {
  Attestation_1 : IndexedAttestation;
  Attestation_2 : IndexedAttestation
}.

(** [types.DetectionKind]; [OtherKind] stands for any value besides the two
    the switch names. *)
Inductive DetectionKind : Type := DoubleVote | SurroundVote | OtherKind.

Record DetectionResult : Type := {
  ValidatorIndex : uint64;
  SlashableEpoch : uint64;
  Kind : DetectionKind;
  SigBytes : list byte
}.

(** [status.SlashingStatus], of which the code uses [Active]. *)
Inductive SlashingStatus : Type := Unknown | Active | Included | Reverted.

#[global] Instance Checkpoint_eq_dec : EqDecision Checkpoint.
Proof. solve_decision. Defined.
#[global] Instance AttestationData_eq_dec : EqDecision AttestationData.
Proof. solve_decision. Defined.
#[global] Instance IndexedAttestation_eq_dec : EqDecision IndexedAttestation.
Proof. solve_decision. Defined.
#[global] Instance AttesterSlashing_eq_dec : EqDecision AttesterSlashing.
Proof. solve_decision. Defined.
#[global] Instance DetectionKind_eq_dec : EqDecision DetectionKind.
Proof. solve_decision. Defined.

(** [sliceutil.IntersectionUint64] on two slices (its package is absent): the
    elements of the second that occur in the first. *)
Definition IntersectionUint64 (a b : list uint64) : list uint64 :=
  filter (λ x, x ∈ a) b.

(** [att.Data.Source.Epoch] and [att.Data.Target.Epoch]: [None] is the
    panic of a nil dereference on the way. *)
Definition Data_Source_Epoch (att : IndexedAttestation) : option uint64 :=
  d ← Data att; c ← Source d; Some (Epoch c).

Definition Data_Target_Epoch (att : IndexedAttestation) : option uint64 :=
  d ← Data att; c ← Target d; Some (Epoch c).

(** [isDoubleVote]; [proto.Equal] compares the two messages field by field,
    and [&&] does not evaluate its right side when the left is false. *)
Definition isDoubleVote (incomingAtt prevAtt : IndexedAttestation) : option bool :=
  if negb (bool_decide (Data incomingAtt = Data prevAtt)) then
    a ← Data_Target_Epoch incomingAtt;
    b ← Data_Target_Epoch prevAtt;
    Some (a =? b)
  else Some false.

Definition isSurrounding (incomingAtt prevAtt : IndexedAttestation) : option bool :=
  a ← Data_Source_Epoch incomingAtt;
  b ← Data_Source_Epoch prevAtt;
  if a <? b then
    c ← Data_Target_Epoch incomingAtt;
    d ← Data_Target_Epoch prevAtt;
    Some (d <? c)
  else Some false.

(** *** What the service takes from elsewhere *)

(** The span detector, the slasher store (an interface of package
    [slasher/db], whose state is kept abstract), [proto.Marshal] on a
    slashing and the sha256 digest. *)
Class Collaborators : Type := {
  SlasherDB : Type;
  DetectSlashingsForAttestation :
    IndexedAttestation → list (option DetectionResult) * option Error;
  IndexedAttestationsWithPrefix :
    SlasherDB → uint64 → list byte → list IndexedAttestation * option Error;
  SaveAttesterSlashings :
    SlasherDB → SlashingStatus → list AttesterSlashing → SlasherDB * option Error;
  Marshal : AttesterSlashing → Outcome (list byte);
  sha256 : list byte → Bytes32
}.

Section Service.

Context `{!Collaborators}.

(** [hashutil.HashProto] on a slashing. *)
Definition HashProto (ss : option AttesterSlashing) : Bytes32 * option Error :=
  hashutil.HashProto sha256 Marshal ss.

(** The loop of [detectDoubleVote] over the attestations read. *)
Fixpoint detectDoubleVote_loop (incomingAtt : IndexedAttestation)
    (detectionResult : DetectionResult) (otherAtts : list IndexedAttestation)
  : Outcome (option AttesterSlashing) :=
  match otherAtts with
  | [] => Ok None
  | att :: rest =>
      if Data att is None then
        detectDoubleVote_loop incomingAtt detectionResult rest
      else if (length (IntersectionUint64 (AttestingIndices att)
                         [ValidatorIndex detectionResult]) =? 0)%nat then
        detectDoubleVote_loop incomingAtt detectionResult rest
      else
        match isDoubleVote incomingAtt att with
        | None => Panic
        | Some true =>
            Ok (Some {| Attestation_1 := incomingAtt; Attestation_2 := att |})
        | Some false => detectDoubleVote_loop incomingAtt detectionResult rest
        end
  end.

Definition detectDoubleVote (db : SlasherDB) (incomingAtt : IndexedAttestation)
    (detectionResult : option DetectionResult)
  : Outcome (option AttesterSlashing) :=
  match detectionResult with
  | None => Ok None
  | Some r =>
      if negb (bool_decide (Kind r = DoubleVote)) then Ok None
      else
        let '(otherAtts, err) :=
          IndexedAttestationsWithPrefix db (SlashableEpoch r) (SigBytes r) in
        match err with
        | Some e => Err e
        | None => detectDoubleVote_loop incomingAtt r otherAtts
        end
  end.

(** The loop of [detectSurroundVotes]; falling out of it is the "false
    positive" error. *)
Fixpoint detectSurroundVotes_loop (incomingAtt : IndexedAttestation)
    (detectionResult : DetectionResult) (otherAtts : list IndexedAttestation)
  : Outcome (option AttesterSlashing) :=
  match otherAtts with
  | [] => Err (errNew "unexpected false positive in surround vote detection")
  | att :: rest =>
      if Data att is None then
        detectSurroundVotes_loop incomingAtt detectionResult rest
      else if (length (IntersectionUint64 (AttestingIndices att)
                         [ValidatorIndex detectionResult]) =? 0)%nat then
        detectSurroundVotes_loop incomingAtt detectionResult rest
      else
        match isSurrounding incomingAtt att with
        | None => Panic
        | Some true =>
            Ok (Some {| Attestation_1 := incomingAtt; Attestation_2 := att |})
        | Some false =>
            match isSurrounding att incomingAtt with
            | None => Panic
            | Some true =>
                Ok (Some {| Attestation_1 := att; Attestation_2 := incomingAtt |})
            | Some false =>
                detectSurroundVotes_loop incomingAtt detectionResult rest
            end
        end
  end.

Definition detectSurroundVotes (db : SlasherDB) (incomingAtt : IndexedAttestation)
    (detectionResult : option DetectionResult)
  : Outcome (option AttesterSlashing) :=
  match detectionResult with
  | None => Ok None
  | Some r =>
      if negb (bool_decide (Kind r = SurroundVote)) then Ok None
      else
        let '(otherAtts, err) :=
          IndexedAttestationsWithPrefix db (SlashableEpoch r) (SigBytes r) in
        match err with
        | Some e => Err e
        | None => detectSurroundVotes_loop incomingAtt r otherAtts
        end
  end.

(** [append] of a slashing that is not nil. *)
Definition append_slashing (slashings : list AttesterSlashing)
    (slashing : option AttesterSlashing) : list AttesterSlashing :=
  match slashing with
  | Some s => slashings ++ [s]
  | None => slashings
  end.

(** The first loop of [DetectAttesterSlashings]: one detection per result;
    reading [result.Kind] of a nil result panics. *)
Fixpoint detect_loop (db : SlasherDB) (att : IndexedAttestation)
    (results : list (option DetectionResult))
    (slashings : list AttesterSlashing) : Outcome (list AttesterSlashing) :=
  match results with
  | [] => Ok slashings
  | None :: _ => Panic
  | Some r :: rest =>
      match Kind r with
      | DoubleVote =>
          match detectDoubleVote db att (Some r) with
          | Ok slashing =>
              detect_loop db att rest (append_slashing slashings slashing)
          | Err e =>
              Err (errWrap e "could not detect double votes on attestation")
          | Panic => Panic
          end
      | SurroundVote =>
          match detectSurroundVotes db att (Some r) with
          | Ok slashing =>
              detect_loop db att rest (append_slashing slashings slashing)
          | Err e =>
              Err (errWrap e "could not detect surround votes on attestation")
          | Panic => Panic
          end
      | OtherKind => detect_loop db att rest slashings
      end
  end.

(** The second loop: "clear out any duplicate results".  [keys] is the
    [map[[32]byte]bool]; a slashing is kept when its hash is not yet a key. *)
Fixpoint dedup_loop (slashings : list AttesterSlashing)
    (keys : gmap Bytes32 bool) (slashingList : list AttesterSlashing)
  : Outcome (list AttesterSlashing) :=
  match slashings with
  | [] => Ok slashingList
  | ss :: rest =>
      let '(hash, err) := HashProto (Some ss) in
      match err with
      | Some e => Err (errWrap e "could not hash slashing")
      | None =>
          match keys !! hash with
          | None => dedup_loop rest (<[hash := true]> keys) (slashingList ++ [ss])
          | Some _ => dedup_loop rest keys slashingList
          end
      end
  end.

(** [DetectAttesterSlashings]: the store after the call and what the call
    comes to.  The store receives [slashings], the list before duplicates
    are cleared. *)
Definition DetectAttesterSlashings (db : SlasherDB) (att : IndexedAttestation)
  : SlasherDB * Outcome (list AttesterSlashing) :=
  let '(results, err) := DetectSlashingsForAttestation att in
  match err with
  | Some e => (db, Err e)
  | None =>
      if (length results =? 0)%nat then (db, Ok [])
      else
        match detect_loop db att results [] with
        | Err e => (db, Err e)
        | Panic => (db, Panic)
        | Ok slashings =>
            match dedup_loop slashings ∅ [] with
            | Err e => (db, Err e)
            | Panic => (db, Panic)
            | Ok slashingList =>
                let '(db', err) := SaveAttesterSlashings db Active slashings in
                match err with
                | Some e => (db', Err e)
                | None => (db', Ok slashingList)
                end
            end
        end
  end.

End Service.

End detection.

(** ** A reference chain to run the service on *)

Module scenario.

Import stategen.

(** Modelled from the spec: [lastSavedState] (file absent) finds the nearest
    ancestor full snapshot at or before [slot] and hands out a fresh object
    read from the store; it fails when no boundary snapshot is persisted at
    or below [slot]. *)
Definition nearest_state (d : DB) (slot : uint64) : option BeaconState :=
  foldr (λ e best,
           if st_slot e.2 <=? slot then
             match best with
             | Some b => if st_slot b <? st_slot e.2 then Some e.2 else best
             | None => Some e.2
             end
           else best)
        None (map_to_list (db_states d)).

Definition lastSavedState (d : DB) (h : Heap) (slot : uint64)
  : Heap * Ptr * option Error :=
  match nearest_state d slot with
  | Some st => let '(h', p) := alloc h st in (h', p, None)
  | None => (h, None, Some (errNew "no valid ancestor"))
  end.

(** Modelled from the spec: [lastSavedBlock] (file absent) finds the nearest
    block and slot at or before [slot]. *)
Definition nearest_block (d : DB) (slot : uint64) : option (Bytes32 * Block) :=
  foldr (λ e best,
           if blk_Slot e.2 <=? slot then
             match best with
             | Some b => if blk_Slot b.2 <? blk_Slot e.2 then Some e else best
             | None => Some e
             end
           else best)
        None (map_to_list (db_blocks d)).

Definition lastSavedBlock (d : DB) (slot : uint64)
  : Bytes32 * uint64 * option Error :=
  match nearest_block d slot with
  | Some (root, b) => (root, blk_Slot b, None)
  | None => (replicate 32 x00, 0, Some (errNew "no saved block"))
  end.

(** Modelled from the spec: the block provider [LoadBlocks] (file absent)
    returns the blocks of slots [startSlot .. endSlot] on the ancestry chain
    that ends at [endBlockRoot], in increasing slot order. *)
Fixpoint chain_to (d : DB) (startSlot : uint64) (fuel : nat) (root : Bytes32)
    (acc : list Block) : list Block :=
  match fuel with
  | O => acc
  | S fuel' =>
      match db_blocks d !! root with
      | None => acc
      | Some b =>
          if blk_Slot b <? startSlot then acc
          else chain_to d startSlot fuel' (blk_ParentRoot b) (b :: acc)
      end
  end.

Definition LoadBlocks (d : DB) (startSlot endSlot : uint64) (endBlockRoot : Bytes32)
  : list Block * option Error :=
  match db_blocks d !! endBlockRoot with
  | None => ([], Some (errNew "unknown end block"))
  | Some _ =>
      (filter (λ b, blk_Slot b ≤ endSlot)
         (chain_to d startSlot (size (db_blocks d)) endBlockRoot []), None)
  end.

(** Modelled from the spec: the Replay Engine [ReplayBlocks] (file absent)
    works on an owned copy of the start snapshot, applies the blocks in
    increasing slot order and advances the slot to [targetSlot]; a block
    that does not move the slot forward is a discontinuous chain.  The
    transition itself is opaque: here it appends the block body. *)
Fixpoint apply_blocks (st : BeaconState) (blks : list Block) : option BeaconState :=
  match blks with
  | [] => Some st
  | b :: rest =>
      if st_slot st <? blk_Slot b then
        apply_blocks {| st_slot := blk_Slot b; st_body := st_body st ++ blk_Body b |} rest
      else None
  end.

Definition ReplayBlocks (h : Heap) (state : Ptr) (blks : list Block) (targetSlot : uint64)
  : Heap * Ptr * option Error :=
  match deref h state with
  | None => (h, None, Some (errNew "nil start state"))
  | Some st =>
      match apply_blocks st blks with
      | None => (h, None, Some (errNew "discontinuous chain"))
      | Some st' =>
          let '(h', p) :=
            alloc h {| st_slot := N.max (st_slot st') targetSlot;
                       st_body := st_body st' |} in
          (h', p, None)
      end
  end.

(** A stand-in for [saveColdState] (file absent): the snapshot is archived
    under its root. *)
Definition saveColdState (root : Bytes32) (state : Ptr) : M unit :=
  λ w, match deref (heap w) state with
       | None => (w, Panic)
       | Some st =>
           (set_beaconDB
              {| db_states := <[root := st]> (db_states (beaconDB w));
                 db_summaries := db_summaries (beaconDB w);
                 db_blocks := db_blocks (beaconDB w) |} w, Ok tt)
       end.

(** The chain of the spec's example: epoch length 32 and a store without
    I/O faults. *)
Definition chain : Collaborators := {|
  SlotsPerEpoch := 32;
  hotStateCacheSize := 16;
  SaveState_fault := λ _ _ _, None;
  SaveStateSummary_fault := λ _ _, None;
  StateSummary_fault := λ _ _, None;
  stategen.lastSavedState := lastSavedState;
  stategen.lastSavedBlock := lastSavedBlock;
  stategen.LoadBlocks := LoadBlocks;
  stategen.ReplayBlocks := ReplayBlocks;
  stategen.saveColdState := saveColdState
|}.

(** The same chain on a store whose block reads fail. *)
Definition chain_unreadable_blocks : Collaborators := {|
  SlotsPerEpoch := 32;
  hotStateCacheSize := 16;
  SaveState_fault := λ _ _ _, None;
  SaveStateSummary_fault := λ _ _, None;
  StateSummary_fault := λ _ _, None;
  stategen.lastSavedState := lastSavedState;
  stategen.lastSavedBlock := lastSavedBlock;
  stategen.LoadBlocks := λ _ _ _ _, ([], Some (errNew "store: read failed"));
  stategen.ReplayBlocks := ReplayBlocks;
  stategen.saveColdState := saveColdState
|}.

(** Block roots [R 0 .. R 8]: 32 bytes, the last one telling them apart. *)
Definition R (i : N) : Bytes32 :=
  replicate 31 x00 ++ [default x00 (Byte.of_N i)].

(** The block of slot [32 + i], child of the block of slot [32 + i - 1]. *)
Definition block_at (i : N) : Block :=
  {| blk_Slot := 32 + i; blk_ParentRoot := R (i - 1);
     blk_Body := [default x00 (Byte.of_N i)] |}.

Definition blocks : gmap Bytes32 Block :=
  list_to_map ((λ i, (R i, block_at i)) <$> [1; 2; 3; 4; 5; 6; 7; 8]).

(** The boundary snapshot of slot 32, saved under [R 0]. *)
Definition S32 : BeaconState := {| st_slot := 32; st_body := [] |}.

(** The snapshot of slot 40, the state after the block of root [R 8]. *)
Definition S40 : BeaconState :=
  {| st_slot := 40; st_body := [x01; x02; x03; x04; x05; x06; x07; x08] |}.

(** A fresh service over the eight blocks, the caller holding [S32] at
    address 0 and [S40] at address 1; the split boundary is at slot 32. *)
Definition fresh : World :=
  {| heap := [S32; S40];
     hotStateCache := [];
     beaconDB := {| db_states := ∅; db_summaries := ∅; db_blocks := blocks |};
     splitInfo_slot := 32 |}.

(** The world after [saveHotState (R 0) S32] and [saveHotState (R 8) S40]. *)
Definition saved : World :=
  (@saveHotState chain (R 8) (Some 1%nat)
     (@saveHotState chain (R 0) (Some 0%nat) fresh).1).1.

(** The same store once the cache has lost its entries. *)
Definition evicted : World := set_hotStateCache [] saved.

(** A service whose store holds neither snapshots nor blocks. *)
Definition blank : World :=
  {| heap := [];
     hotStateCache := [];
     beaconDB := {| db_states := ∅; db_summaries := ∅; db_blocks := ∅ |};
     splitInfo_slot := 0 |}.

End scenario.

(** ** A double vote to run the detection on *)

Module double_vote.

Import detection.

(** Validators 7 and 9 attested to target epoch 5 before, and now attest to
    the same target with another block root. *)
Definition stored : IndexedAttestation :=
  {| AttestingIndices := [7; 9];
     Data := Some {| att_Slot := 160; CommitteeIndex := 0;
                     BeaconBlockRoot := [x0a];
                     Source := Some {| Epoch := 4; Root := [x04] |};
                     Target := Some {| Epoch := 5; Root := [x05] |} |};
     Signature := [x01] |}.

Definition incoming : IndexedAttestation :=
  {| AttestingIndices := [7; 9];
     Data := Some {| att_Slot := 161; CommitteeIndex := 0;
                     BeaconBlockRoot := [x0b];
                     Source := Some {| Epoch := 4; Root := [x04] |};
                     Target := Some {| Epoch := 5; Root := [x05] |} |};
     Signature := [x02] |}.

(** The span detector reports one double vote per validator; the store is
    the list of slashings saved so far; the encoding and the digest are toy
    ones (signatures side by side, padded to 32 bytes). *)
Definition service : Collaborators := {|
  SlasherDB := list (SlashingStatus * AttesterSlashing);
  DetectSlashingsForAttestation := λ _,
    ([Some {| ValidatorIndex := 7; SlashableEpoch := 5;
              Kind := DoubleVote; SigBytes := [x01] |};
      Some {| ValidatorIndex := 9; SlashableEpoch := 5;
              Kind := DoubleVote; SigBytes := [x01] |}], None);
  IndexedAttestationsWithPrefix := λ _ _ _, ([stored], None);
  SaveAttesterSlashings := λ db st l, (db ++ ((λ s, (st, s)) <$> l), None);
  Marshal := λ s,
    Ok (Signature (Attestation_1 s) ++ Signature (Attestation_2 s));
  sha256 := ToBytes32
|}.

Definition slashing : AttesterSlashing :=
  {| Attestation_1 := incoming; Attestation_2 := stored |}.

End double_vote.

(** ** shared/hashutil, with the pooled hasher spelled out *)

Module hashpool.

Section Pool.

(** A [hash.Hash] as the package uses it: the state of a hasher is the bytes
    written since the last [Reset]; [Write] appends, [Sum b] appends the
    digest of what was written to [b] and leaves the hasher as it is.  The
    digest function itself is external. *)
Variable digest : list byte → list byte.

Abbreviation Hasher := (list byte) (only parsing).

Definition Reset (h : Hasher) : Hasher := [].

Definition Write (h : Hasher) (data : list byte) : Hasher := h ++ data.

Definition Sum (h : Hasher) (b : list byte) : list byte := b ++ digest h.

(** [h.Sum(b[:0])] on [var b [32]byte]: the digest is appended to an empty
    slice of capacity 32 over [b], so it lands in [b] when it fits (the rest
    of [b] stays zero) and in a fresh array, leaving [b] zero, when it does
    not. *)
Definition sum_into_array (h : Hasher) : Bytes32 :=
  let d := Sum h [] in
  if decide (length d ≤ 32)%nat then d ++ replicate (32 - length d) x00
  else replicate 32 x00.

(** [Hash] and [HashKeccak256] (the same body over the other pool): the
    hasher comes out of the pool in the state its last user left it in, and
    goes back as this call leaves it.  The result is the array and the
    hasher put back. *)
Definition Hash (pooled : Hasher) (data : list byte) : Bytes32 * Hasher :=
  let h := Reset pooled in
  let h := Write h data in
  (sum_into_array h, h).

Definition HashKeccak256 (pooled : Hasher) (data : list byte) : Bytes32 * Hasher :=
  let h := Reset pooled in
  let h := Write h data in
  (sum_into_array h, h).

(** [CustomSHA256Hasher]: the enclosed hasher after the initial [Reset], and
    one call of the returned function on it. *)
Definition CustomSHA256Hasher (pooled : Hasher) : Hasher := Reset pooled.

Definition custom_call (hasher : Hasher) (data : list byte) : Bytes32 * Hasher :=
  let hasher := Write hasher data in
  let hash := sum_into_array hasher in
  let hasher := Reset hasher in
  (hash, hasher).

(** The returned function called on one input after the other. *)
Fixpoint custom_calls (hasher : Hasher) (inputs : list (list byte))
  : list Bytes32 * Hasher :=
  match inputs with
  | [] => ([], hasher)
  | data :: rest =>
      let '(hash, hasher) := custom_call hasher data in
      let '(hashes, hasher) := custom_calls hasher rest in
      (hash :: hashes, hasher)
  end.

End Pool.

End hashpool.

(** ** Package flags (the second package of hot.go as given) *)

Module flags.

Local Open Scope Z_scope.

(** A Go [int] is a [Z]; [int(ctx.Int64(..))] keeps the value on a 64-bit
    platform. *)
Record GlobalFlags : Type := {
  EnableArchive : bool;
  EnableArchivedValidatorSetChanges : bool;
  EnableArchivedBlocks : bool;
  EnableArchivedAttestations : bool;
  MinimumSyncPeers : Z;
  MaxPageSize : Z;
  DeploymentBlock : Z;
  UnsafeSync : bool;
  EnableDiscv5 : bool
}.

(** [&GlobalFlags{}] *)
Definition zero : GlobalFlags :=
  {| EnableArchive := false; EnableArchivedValidatorSetChanges := false;
     EnableArchivedBlocks := false; EnableArchivedAttestations := false;
     MinimumSyncPeers := 0; MaxPageSize := 0; DeploymentBlock := 0;
     UnsafeSync := false; EnableDiscv5 := false |}.

(** The parts of [*cli.Context] the package reads. *)
Record Context : Type := {
  ctx_Bool : string → bool;
  ctx_Int : string → Z;
  ctx_Int64 : string → Z
}.

(** The names of the flags, declared in files that are not among the
    sources. *)
Class FlagNames : Type := {
  ArchiveEnableFlag : string;
  ArchiveValidatorSetChangesFlag : string;
  ArchiveBlocksFlag : string;
  ArchiveAttestationsFlag : string;
  UnsafeSyncFlag : string;
  EnableDiscv5Flag : string;
  RPCMaxPageSize : string;
  ContractDeploymentBlock : string;
  MinSyncPeers : string;
  P2PMaxPeers : string
}.

(** [globalConfig] is nil or holds the flags. *)
Definition Get (globalConfig : option GlobalFlags) : GlobalFlags :=
  match globalConfig with
  | None => zero
  | Some c => c
  end.

Definition Init (c : option GlobalFlags) : option GlobalFlags := c.

Definition set_MinimumSyncPeers (v : Z) (cfg : GlobalFlags) : GlobalFlags :=
  {| EnableArchive := EnableArchive cfg;
     EnableArchivedValidatorSetChanges := EnableArchivedValidatorSetChanges cfg;
     EnableArchivedBlocks := EnableArchivedBlocks cfg;
     EnableArchivedAttestations := EnableArchivedAttestations cfg;
     MinimumSyncPeers := v;
     MaxPageSize := MaxPageSize cfg;
     DeploymentBlock := DeploymentBlock cfg;
     UnsafeSync := UnsafeSync cfg;
     EnableDiscv5 := EnableDiscv5 cfg |}.

Section Configure.

Context `{!FlagNames}.

Definition configureMinimumPeers (ctx : Context) (cfg : GlobalFlags) : GlobalFlags :=
  let cfg := set_MinimumSyncPeers (ctx_Int ctx MinSyncPeers) cfg in
  let maxPeers := ctx_Int64 ctx P2PMaxPeers in
  if maxPeers <? MinimumSyncPeers cfg then set_MinimumSyncPeers maxPeers cfg
  else cfg.

(** [ConfigureGlobalFlags]: the new value of [globalConfig]. *)
Definition ConfigureGlobalFlags (ctx : Context) : option GlobalFlags :=
  let cfg :=
    {| EnableArchive :=
         if ctx_Bool ctx ArchiveEnableFlag then true else false;
       EnableArchivedValidatorSetChanges :=
         if ctx_Bool ctx ArchiveValidatorSetChangesFlag then true else false;
       EnableArchivedBlocks :=
         if ctx_Bool ctx ArchiveBlocksFlag then true else false;
       EnableArchivedAttestations :=
         if ctx_Bool ctx ArchiveAttestationsFlag then true else false;
       MinimumSyncPeers := 0;
       MaxPageSize := ctx_Int ctx RPCMaxPageSize;
       DeploymentBlock := ctx_Int ctx ContractDeploymentBlock;
       UnsafeSync := if ctx_Bool ctx UnsafeSyncFlag then true else false;
       EnableDiscv5 := if ctx_Bool ctx EnableDiscv5Flag then true else false |} in
  let cfg := configureMinimumPeers ctx cfg in
  Init (Some cfg).

End Configure.

(** Flag names and a command line asking for 8 sync peers with at most 5
    peers allowed. *)
Definition names : FlagNames := {|
  ArchiveEnableFlag := "archive";
  ArchiveValidatorSetChangesFlag := "archive-validator-set-changes";
  ArchiveBlocksFlag := "archive-blocks";
  ArchiveAttestationsFlag := "archive-attestations";
  UnsafeSyncFlag := "unsafe-sync";
  EnableDiscv5Flag := "enable-discv5";
  RPCMaxPageSize := "rpc-max-page-size";
  ContractDeploymentBlock := "contract-deployment-block";
  MinSyncPeers := "min-sync-peers";
  P2PMaxPeers := "p2p-max-peers"
|}.

Definition command_line : Context := {|
  ctx_Bool := λ n, bool_decide (n = "archive");
  ctx_Int := λ n, if bool_decide (n = "min-sync-peers") then 8 else 500;
  ctx_Int64 := λ _, 5
|}.

End flags.

(** ** Store invariants and faulty stores of the hot region *)

Module hotstore.

Import stategen.

(** Every checkpoint pointer is filed under the root it names. *)
Definition pointers_keyed (d : DB) : Prop :=
  ∀ (root : Bytes32) (s : StateSummary),
    db_summaries d !! root = Some s → summary_Root s = root.

(** Every full snapshot of the store sits on an epoch-boundary slot. *)
Definition boundary_only (E : positive) (d : DB) : Prop :=
  ∀ (root : Bytes32) (st : BeaconState),
    db_states d !! root = Some st → (N.pos E | st_slot st).

(** The reference chain on a store that cannot write checkpoint pointers. *)
Definition chain_pointer_fault : Collaborators := {|
  SlotsPerEpoch := 32;
  hotStateCacheSize := 16;
  SaveState_fault := λ _ _ _, None;
  SaveStateSummary_fault := λ _ _, Some (errNew "store: write failed");
  StateSummary_fault := λ _ _, None;
  lastSavedState := scenario.lastSavedState;
  lastSavedBlock := scenario.lastSavedBlock;
  LoadBlocks := scenario.LoadBlocks;
  ReplayBlocks := scenario.ReplayBlocks;
  saveColdState := scenario.saveColdState
|}.

(** The reference chain with a snapshot lookup that finds nothing and
    reports no error. *)
Definition chain_no_ancestor : Collaborators := {|
  SlotsPerEpoch := 32;
  hotStateCacheSize := 16;
  SaveState_fault := λ _ _ _, None;
  SaveStateSummary_fault := λ _ _, None;
  StateSummary_fault := λ _ _, None;
  lastSavedState := λ _ h _, (h, None, None);
  lastSavedBlock := scenario.lastSavedBlock;
  LoadBlocks := scenario.LoadBlocks;
  ReplayBlocks := scenario.ReplayBlocks;
  saveColdState := scenario.saveColdState
|}.

(** The store of the saved service without its full snapshots: the pointer
    of [R 8] is there, the boundary snapshot is not. *)
Definition pointers_only : World :=
  set_beaconDB
    {| db_states := ∅;
       db_summaries := db_summaries (beaconDB scenario.evicted);
       db_blocks := db_blocks (beaconDB scenario.evicted) |}
    scenario.evicted.

End hotstore.

(** ** Surround votes to run the detection on *)

Module surround_vote.

Import detection.

(** An attestation of validator 7 with the given source and target
    epochs. *)
Definition vote (source target : uint64) (sig : byte) : IndexedAttestation :=
  {| AttestingIndices := [7];
     Data := Some {| att_Slot := 32 * target; CommitteeIndex := 0;
                     BeaconBlockRoot := [sig];
                     Source := Some {| Epoch := source; Root := [] |};
                     Target := Some {| Epoch := target; Root := [] |} |};
     Signature := [sig] |}.

Definition outer : IndexedAttestation := vote 1 9 x01.
Definition middle : IndexedAttestation := vote 2 8 x02.
Definition inner : IndexedAttestation := vote 3 7 x03.

Definition result : DetectionResult :=
  {| ValidatorIndex := 7; SlashableEpoch := 8;
     Kind := SurroundVote; SigBytes := [x02] |}.

(** The store holds [middle]; the span detector reports a surround vote. *)
Definition service : Collaborators := {|
  SlasherDB := list (SlashingStatus * AttesterSlashing);
  DetectSlashingsForAttestation := λ _, ([Some result], None);
  IndexedAttestationsWithPrefix := λ _ _ _, ([middle], None);
  SaveAttesterSlashings := λ db st l, (db ++ ((λ s, (st, s)) <$> l), None);
  Marshal := λ s,
    Ok (Signature (Attestation_1 s) ++ Signature (Attestation_2 s));
  sha256 := ToBytes32
|}.

(** The same detector over a store that holds no attestation. *)
Definition service_empty : Collaborators := {|
  SlasherDB := list (SlashingStatus * AttesterSlashing);
  DetectSlashingsForAttestation := λ _, ([Some result], None);
  IndexedAttestationsWithPrefix := λ _ _ _, ([], None);
  SaveAttesterSlashings := λ db st l, (db ++ ((λ s, (st, s)) <$> l), None);
  Marshal := λ s,
    Ok (Signature (Attestation_1 s) ++ Signature (Attestation_2 s));
  sha256 := ToBytes32
|}.

End surround_vote.

(** * Properties *)

(** ** Byte arrays *)

Lemma ToBytes32_id (x : list byte) : length x = 32%nat → ToBytes32 x = x.
Proof.
  intros Hx. unfold ToBytes32.
  rewrite take_ge by lia. rewrite Hx, Nat.sub_diag. simpl. apply app_nil_r.
Qed.

Lemma ToBytes32_length (x : list byte) : length (ToBytes32 x) = 32%nat.
Proof.
  unfold ToBytes32. rewrite length_app, length_take, length_replicate. lia.
Qed.

(** ** shared/hashutil *)

Section HashutilFacts.

Variable sha256 : list byte → Bytes32.

Local Abbreviation Hash := (hashutil.Hash sha256).
Local Abbreviation RepeatHash := (hashutil.RepeatHash sha256).
Local Abbreviation iterated_Hash := (hashutil.iterated_Hash sha256).

Lemma RepeatHash_zero (data : Bytes32) : RepeatHash data 0 = data.
Proof. by rewrite hashutil.RepeatHash_equation_1. Qed.

Lemma RepeatHash_step (data : Bytes32) (n : N) :
  n ≠ 0 → RepeatHash data n = RepeatHash (Hash data) (n - 1).
Proof.
  intros Hn. rewrite hashutil.RepeatHash_equation_1.
  destruct (N.eq_dec n 0) as [e|ne]; [congruence|]. reflexivity.
Qed.

Lemma RepeatHash_succ (data : Bytes32) (n : N) :
  RepeatHash data (N.succ n) = RepeatHash (Hash data) n.
Proof.
  rewrite RepeatHash_step by lia. f_equal. lia.
Qed.

Lemma RepeatHash_iter (n : N) :
  ∀ data, RepeatHash data n = iterated_Hash n data.
Proof.
  unfold hashutil.iterated_Hash.
  induction n as [|n IH] using N.peano_ind; intros data.
  - apply RepeatHash_zero.
  - rewrite RepeatHash_succ, IH, N.iter_succ_r. reflexivity.
Qed.

(** A digest of 32 bytes keeps [RepeatHash] on 32-byte arrays. *)
Lemma RepeatHash_length (n : N) :
  (∀ x, length (sha256 x) = 32%nat) →
  ∀ data, length data = 32%nat → length (RepeatHash data n) = 32%nat.
Proof.
  intros Hsha. induction n as [|n IH] using N.peano_ind; intros data Hd.
  - by rewrite RepeatHash_zero.
  - rewrite RepeatHash_succ. apply IH, Hsha.
Qed.

(** C10.  [RepeatHash] is the [n]-fold iteration of [Hash]: on every
    array [d] it returns [d] for [n = 0], it equals
    [RepeatHash (Hash d) (n - 1)] for [n > 0], and for every [n] it is
    [Hash] applied [n] times to [d]. *)
Theorem RepeatHash_is_iterated_Hash (d : Bytes32) (n : uint64) :
  RepeatHash d 0 = d
  ∧ (0 < n → RepeatHash d n = RepeatHash (Hash d) (n - 1))
  ∧ RepeatHash d n = iterated_Hash n d.
Proof.
  split; [apply RepeatHash_zero|]. split.
  - intros Hn. apply RepeatHash_step. lia.
  - apply RepeatHash_iter.
Qed.

End HashutilFacts.

(** The recurrence at [n = 3] on a toy digest that reverses its input. *)
Lemma RepeatHash_is_iterated_Hash_witness :
  (0 < 3)
  ∧ hashutil.RepeatHash (λ x, reverse x) [x01; x02] 3
    = hashutil.RepeatHash (λ x, reverse x)
        (hashutil.Hash (λ x, reverse x) [x01; x02]) (3 - 1).
Proof.
  split; [lia|].
  destruct (RepeatHash_is_iterated_Hash (λ x, reverse x) [x01; x02] 3)
    as (_ & Hstep & _).
  apply Hstep. lia.
Defined.

(** ** The hot state cache *)

Section CacheFacts.

Import stategen.

Lemma Has_true_lookup (c : HotStateCache.t) (root : Bytes32) :
  HotStateCache.Has c root = true ↔ is_Some (HotStateCache.lookup c root).
Proof. unfold HotStateCache.Has. apply bool_decide_eq_true. Qed.

Lemma Has_false_lookup (c : HotStateCache.t) (root : Bytes32) :
  HotStateCache.Has c root = false ↔ HotStateCache.lookup c root = None.
Proof.
  unfold HotStateCache.Has. rewrite bool_decide_eq_false.
  rewrite eq_None_not_Some. reflexivity.
Qed.

(** What [Put] stores under a root is found under that root, whatever the
    size bound evicts. *)
Lemma lookup_Put (size : positive) (c : HotStateCache.t) (root : Bytes32) (p : Ptr) :
  HotStateCache.lookup (HotStateCache.Put size c root p) root = Some p.
Proof.
  unfold HotStateCache.Put.
  destruct (Pos.to_nat size) as [|n] eqn:Hn; [lia|].
  simpl. by rewrite decide_True.
Qed.

Lemma Has_Put (size : positive) (c : HotStateCache.t) (root : Bytes32) (p : Ptr) :
  HotStateCache.Has (HotStateCache.Put size c root p) root = true.
Proof. apply Has_true_lookup. rewrite lookup_Put. eauto. Qed.

(** A miss leaves cache and heap alone and yields nil. *)
Lemma Get_miss (c : HotStateCache.t) (h : Heap) (root : Bytes32) :
  HotStateCache.Has c root = false → HotStateCache.Get c h root = (c, h, None).
Proof.
  intros Hmiss. apply Has_false_lookup in Hmiss.
  unfold HotStateCache.Get. by rewrite Hmiss.
Qed.

End CacheFacts.

(** ** beacon-chain/state/stategen *)

Section StategenFacts.

Import stategen.

Context `{!Collaborators}.

(** Unfolding one call of the embedding. *)
Ltac run :=
  unfold bind, check, check_wrap, ret, throw, hotStateCache_Has,
    hotStateCache_Get, hotStateCache_Put, beaconDB_SaveState,
    beaconDB_SaveStateSummary, beaconDB_StateSummary, call_lastSavedState,
    call_lastSavedBlock, call_LoadBlocks, call_ReplayBlocks, Slot, Copy,
    splitInfo_slot_read, alloc;
  simpl.

Lemma IsEpochStart_divide (slot : uint64) :
  IsEpochStart slot = true ↔ (N.pos SlotsPerEpoch | slot).
Proof.
  unfold IsEpochStart. rewrite N.eqb_eq. apply N.Lcm0.mod_divide.
Qed.

Lemma set_same (w : World) :
  set_heap (heap w) (set_hotStateCache (hotStateCache w) w) = w.
Proof. by destruct w. Qed.

(** The miss path of [loadHotStateByRoot] up to the located ancestor: the
    cache is missed, the pointer is read, and [lastSavedState] hands out
    [startState]. *)
Lemma loadHotStateByRoot_miss (w : World) (blockRoot : Bytes32)
    (summary : StateSummary) (h1 : Heap) (startState : Ptr) (st : BeaconState) :
  HotStateCache.Has (hotStateCache w) blockRoot = false →
  StateSummary_fault (beaconDB w) blockRoot = None →
  db_summaries (beaconDB w) !! blockRoot = Some summary →
  lastSavedState (beaconDB w) (heap w)
    (StartSlot (SlotToEpoch (summary_Slot summary))) = (h1, startState, None) →
  deref h1 startState = Some st →
  loadHotStateByRoot blockRoot w =
    (let targetSlot := summary_Slot summary in
     let* hotState :=
       (if targetSlot =? st_slot st then ret startState
        else
          let* (blks, err) :=
            call_LoadBlocks (wrap64 (st_slot st + 1)) targetSlot
              (ToBytes32 (summary_Root summary)) in
          check_wrap err "could not load blocks for hot state using root" ;;
          let* (hotState, err) := call_ReplayBlocks startState blks targetSlot in
          check_wrap err "could not replay blocks for hot state using root" ;;
          ret hotState) in
     let* copy := Copy hotState in
     hotStateCache_Put blockRoot copy ;;
     ret hotState)%go (set_heap h1 w).
Proof.
  intros Hmiss Hfault Hsum Hlast Hst.
  unfold loadHotStateByRoot.
  unfold bind at 1. unfold hotStateCache_Get.
  rewrite (Get_miss _ _ _ Hmiss), set_same.
  unfold bind at 1. unfold beaconDB_StateSummary. rewrite Hfault, Hsum.
  unfold bind at 1. unfold check at 1, ret at 1.
  unfold bind at 1. unfold call_lastSavedState. rewrite Hlast.
  unfold bind at 1. unfold check at 1, ret at 1.
  destruct startState as [l|]; [|discriminate].
  unfold bind at 1. unfold Slot at 1. simpl heap. rewrite Hst.
  reflexivity.
Qed.

(** C6.  A root that is neither in the hot state cache nor has a persisted
    checkpoint pointer makes [loadHotStateByRoot] fail with
    [errUnknownStateSummary]; no state is returned and nothing changes. *)
Theorem loadHotStateByRoot_unknown_summary (w : World) (blockRoot : Bytes32) :
  HotStateCache.Has (hotStateCache w) blockRoot = false →
  StateSummary_fault (beaconDB w) blockRoot = None →
  db_summaries (beaconDB w) !! blockRoot = None →
  loadHotStateByRoot blockRoot w = (w, Err errUnknownStateSummary).
Proof.
  intros Hmiss Hfault Hsum.
  unfold loadHotStateByRoot. run.
  rewrite (Get_miss _ _ _ Hmiss), set_same. simpl.
  by rewrite Hfault, Hsum.
Qed.


(** A successful hot save of a root that was not cached: the state behind
    the pointer, the store and the cache afterwards. *)
Lemma saveHotState_fresh_inv (w w' : World) (blockRoot : Bytes32) (state : Ptr) :
  HotStateCache.Has (hotStateCache w) blockRoot = false →
  saveHotState blockRoot state w = (w', Ok tt) →
  ∃ st, deref (heap w) state = Some st
    ∧ heap w' = heap w
    ∧ splitInfo_slot w' = splitInfo_slot w
    ∧ hotStateCache w' =
        HotStateCache.Put hotStateCacheSize (hotStateCache w) blockRoot state
    ∧ db_blocks (beaconDB w') = db_blocks (beaconDB w)
    ∧ db_states (beaconDB w') =
        (if IsEpochStart (st_slot st)
         then <[blockRoot := st]> (db_states (beaconDB w))
         else db_states (beaconDB w))
    ∧ db_summaries (beaconDB w') =
        <[blockRoot := {| summary_Slot := st_slot st; summary_Root := blockRoot |}]>
          (db_summaries (beaconDB w)).
Proof.
  intros Hmiss. unfold saveHotState. run. rewrite Hmiss.
  destruct (deref (heap w) state) as [st|] eqn:Hst; simpl; [|discriminate].
  intros Hsave. exists st. split; [done|]. revert Hsave.
  destruct (IsEpochStart (st_slot st)); simpl; rewrite ?Hst; simpl.
  - destruct (SaveState_fault _ _ _); simpl; [discriminate|]. rewrite Hst. simpl.
    destruct (SaveStateSummary_fault _ _); simpl; [discriminate|].
    intros [= <-]. done.
  - destruct (SaveStateSummary_fault _ _); simpl; [discriminate|].
    intros [= <-]. done.
Qed.

(** C1.  A successful [saveHotState] of a root that is not cached persists
    the full snapshot under the root if and only if the snapshot's slot is
    a multiple of the epoch length, and persists the checkpoint pointer
    [{slot, root}] in every case; a root that held no full snapshot before
    holds one afterwards exactly on a boundary slot. *)
Theorem saveHotState_boundary_correct (w w' : World) (blockRoot : Bytes32) (state : Ptr) :
  HotStateCache.Has (hotStateCache w) blockRoot = false →
  saveHotState blockRoot state w = (w', Ok tt) →
  ∃ st, deref (heap w) state = Some st
    ∧ ((N.pos SlotsPerEpoch | st_slot st) →
         db_states (beaconDB w') = <[blockRoot := st]> (db_states (beaconDB w)))
    ∧ (¬ (N.pos SlotsPerEpoch | st_slot st) →
         db_states (beaconDB w') = db_states (beaconDB w))
    ∧ db_summaries (beaconDB w') =
        <[blockRoot := {| summary_Slot := st_slot st; summary_Root := blockRoot |}]>
          (db_summaries (beaconDB w))
    ∧ (db_states (beaconDB w) !! blockRoot = None →
         (db_states (beaconDB w') !! blockRoot = Some st
          ↔ (N.pos SlotsPerEpoch | st_slot st))).
Proof.
  intros Hmiss Hsave.
  destruct (saveHotState_fresh_inv _ _ _ _ Hmiss Hsave)
    as (st & Hst & _ & _ & _ & _ & Hstates & Hsums).
  exists st. split; [done|].
  destruct (IsEpochStart (st_slot st)) eqn:Hstart.
  - apply IsEpochStart_divide in Hstart.
    repeat split; try done.
    rewrite Hstates. by rewrite lookup_insert_eq.
  - assert (¬ (N.pos SlotsPerEpoch | st_slot st)) as Hnd.
    { intros Hd. apply IsEpochStart_divide in Hd. congruence. }
    repeat split; try done.
    rewrite Hstates. intros Hsome. congruence.
Qed.

(** After a successful hot save the root is in the cache. *)
Lemma saveHotState_Ok_Has (w w' : World) (blockRoot : Bytes32) (state : Ptr) :
  saveHotState blockRoot state w = (w', Ok tt) →
  HotStateCache.Has (hotStateCache w') blockRoot = true.
Proof.
  intros Hsave.
  destruct (HotStateCache.Has (hotStateCache w) blockRoot) eqn:Hhas.
  - unfold saveHotState, bind, hotStateCache_Has in Hsave.
    rewrite Hhas in Hsave. unfold ret in Hsave. by injection Hsave as <-.
  - destruct (saveHotState_fresh_inv _ _ _ _ Hhas Hsave)
      as (st & _ & _ & _ & Hcache & _).
    rewrite Hcache. apply Has_Put.
Qed.

Lemma saveHotState_cached (w : World) (blockRoot : Bytes32) (state : Ptr) :
  HotStateCache.Has (hotStateCache w) blockRoot = true →
  saveHotState blockRoot state w = (w, Ok tt).
Proof.
  intros Hhas. unfold saveHotState, bind, hotStateCache_Has.
  by rewrite Hhas.
Qed.

(** C3.  [saveHotState] on a root that is in the hot state cache returns
    success at once and changes neither cache nor store nor heap; so a
    second save of the same root after a first one adds nothing: the two
    calls in a row come to what the first call alone comes to. *)
Theorem saveHotState_idempotent (w : World) (blockRoot : Bytes32) (state state' : Ptr) :
  (HotStateCache.Has (hotStateCache w) blockRoot = true →
     saveHotState blockRoot state w = (w, Ok tt))
  ∧ (saveHotState blockRoot state ;; saveHotState blockRoot state')%go w
    = saveHotState blockRoot state w.
Proof.
  split; [apply saveHotState_cached|].
  unfold bind at 1.
  destruct (saveHotState blockRoot state w) as [w1 [[]| |]] eqn:Hsave; try done.
  apply saveHotState_cached. by eapply saveHotState_Ok_Has.
Qed.

(** C5.  [SaveState] hands the snapshot to the cold save exactly when its
    slot is strictly below the split slot and to the hot save otherwise;
    the outcome and the resulting world are the delegate's. *)
Theorem SaveState_routes_by_split (w : World) (root : Bytes32) (state : Ptr)
    (st : BeaconState) :
  deref (heap w) state = Some st →
  (st_slot st < splitInfo_slot w →
     SaveState root state w = saveColdState root state w)
  ∧ (splitInfo_slot w ≤ st_slot st →
     SaveState root state w = saveHotState root state w).
Proof.
  intros Hst. unfold SaveState. run. rewrite Hst.
  split; intros Hcmp.
  - apply N.ltb_lt in Hcmp. by rewrite Hcmp.
  - apply N.ltb_ge in Hcmp. by rewrite Hcmp.
Qed.

(** C2.  On a cache miss with a persisted checkpoint pointer for the root,
    [loadHotStateByRoot] returns the ancestor snapshot that [lastSavedState]
    located, itself and without replay, when its slot is the pointer's
    slot (the heap only gains the copy put in the cache); otherwise the
    state it returns is the one [ReplayBlocks] makes of that snapshot, the
    pointer's slot and the blocks [LoadBlocks] returns for slots
    [boundary + 1 .. pointer slot] ending at the root. *)
Theorem loadHotStateByRoot_boundary_or_replay (w : World) (blockRoot : Bytes32)
    (summary : StateSummary) (h1 : Heap) (startState : Ptr) (st : BeaconState) :
  HotStateCache.Has (hotStateCache w) blockRoot = false →
  StateSummary_fault (beaconDB w) blockRoot = None →
  db_summaries (beaconDB w) !! blockRoot = Some summary →
  summary_Root summary = blockRoot →
  length blockRoot = 32%nat →
  lastSavedState (beaconDB w) (heap w)
    (StartSlot (SlotToEpoch (summary_Slot summary))) = (h1, startState, None) →
  deref h1 startState = Some st →
  (st_slot st = summary_Slot summary →
     loadHotStateByRoot blockRoot w =
       ({| heap := h1 ++ [st];
           hotStateCache :=
             HotStateCache.Put hotStateCacheSize (hotStateCache w) blockRoot
               (Some (length h1));
           beaconDB := beaconDB w;
           splitInfo_slot := splitInfo_slot w |}, Ok startState))
  ∧ (st_slot st ≠ summary_Slot summary →
     ∀ (blks : list Block) (h2 : Heap) (hotState : Ptr) (st' : BeaconState),
       LoadBlocks (beaconDB w) (wrap64 (st_slot st + 1)) (summary_Slot summary)
         blockRoot = (blks, None) →
       ReplayBlocks h1 startState blks (summary_Slot summary)
         = (h2, hotState, None) →
       deref h2 hotState = Some st' →
       loadHotStateByRoot blockRoot w =
         ({| heap := h2 ++ [st'];
             hotStateCache :=
               HotStateCache.Put hotStateCacheSize (hotStateCache w) blockRoot
                 (Some (length h2));
             beaconDB := beaconDB w;
             splitInfo_slot := splitInfo_slot w |}, Ok hotState)).
Proof.
  intros Hmiss Hfault Hsum Hroot Hlen Hlast Hst.
  rewrite (loadHotStateByRoot_miss _ _ _ _ _ _ Hmiss Hfault Hsum Hlast Hst).
  rewrite Hroot, (ToBytes32_id _ Hlen). cbv zeta. split.
  - intros Heq. rewrite <- Heq, N.eqb_refl. run. by rewrite Hst.
  - intros Hne blks h2 hotState st' Hload Hreplay Hst'.
    apply not_eq_sym, N.eqb_neq in Hne. rewrite Hne.
    run. rewrite Hload. simpl. rewrite Hreplay. simpl. by rewrite Hst'.
Qed.

(** C7.  When block loading or block replay fails inside
    [loadHotStateByRoot], the call returns the wrapped error and the hot
    state cache (and the store) is as it was before the call. *)
Theorem loadHotStateByRoot_failure_keeps_cache (w : World) (blockRoot : Bytes32)
    (summary : StateSummary) (h1 : Heap) (startState : Ptr) (st : BeaconState) :
  HotStateCache.Has (hotStateCache w) blockRoot = false →
  StateSummary_fault (beaconDB w) blockRoot = None →
  db_summaries (beaconDB w) !! blockRoot = Some summary →
  lastSavedState (beaconDB w) (heap w)
    (StartSlot (SlotToEpoch (summary_Slot summary))) = (h1, startState, None) →
  deref h1 startState = Some st →
  st_slot st ≠ summary_Slot summary →
  (∀ (blks : list Block) (e : Error),
     LoadBlocks (beaconDB w) (wrap64 (st_slot st + 1)) (summary_Slot summary)
       (ToBytes32 (summary_Root summary)) = (blks, Some e) →
     ∃ w', loadHotStateByRoot blockRoot w =
             (w', Err (errWrap e "could not load blocks for hot state using root"))
           ∧ hotStateCache w' = hotStateCache w
           ∧ beaconDB w' = beaconDB w)
  ∧ (∀ (blks : list Block) (h2 : Heap) (p : Ptr) (e : Error),
     LoadBlocks (beaconDB w) (wrap64 (st_slot st + 1)) (summary_Slot summary)
       (ToBytes32 (summary_Root summary)) = (blks, None) →
     ReplayBlocks h1 startState blks (summary_Slot summary) = (h2, p, Some e) →
     ∃ w', loadHotStateByRoot blockRoot w =
             (w', Err (errWrap e "could not replay blocks for hot state using root"))
           ∧ hotStateCache w' = hotStateCache w
           ∧ beaconDB w' = beaconDB w).
Proof.
  intros Hmiss Hfault Hsum Hlast Hst Hne.
  rewrite (loadHotStateByRoot_miss _ _ _ _ _ _ Hmiss Hfault Hsum Hlast Hst).
  apply not_eq_sym, N.eqb_neq in Hne. cbv zeta. rewrite Hne. split.
  - intros blks e Hload. run. rewrite Hload. simpl. eauto.
  - intros blks h2 p e Hload Hreplay. run. rewrite Hload. simpl.
    rewrite Hreplay. simpl. eauto.
Qed.

(** Whatever way [loadHotStateByRoot] fails after a cache miss, the cache
    is as before. *)
Lemma loadHotStateByRoot_not_Ok_keeps_cache (w w' : World) (blockRoot : Bytes32)
    (o : Outcome Ptr) :
  HotStateCache.Has (hotStateCache w) blockRoot = false →
  loadHotStateByRoot blockRoot w = (w', o) →
  (∀ p, o ≠ Ok p) →
  hotStateCache w' = hotStateCache w.
Proof.
  intros Hmiss Hrun Hfail. revert Hrun.
  unfold loadHotStateByRoot. run.
  rewrite (Get_miss _ _ _ Hmiss), set_same. simpl.
  destruct (StateSummary_fault _ _); simpl; [by intros [= <- <-]|].
  destruct (db_summaries _ !! _) as [summary|]; simpl; [|by intros [= <- <-]].
  destruct (lastSavedState _ _ _) as [[h1 startState] [e|]]; simpl;
    [by intros [= <- <-]|].
  destruct startState as [l|]; simpl; [|by intros [= <- <-]].
  destruct (h1 !! l) as [st|] eqn:Hl; simpl; [|by intros [= <- <-]].
  destruct (summary_Slot summary =? st_slot st); simpl.
  - rewrite ?Hl. simpl. intros [= <- <-]. by edestruct Hfail.
  - destruct (LoadBlocks _ _ _ _) as [blks [e|]]; simpl; [by intros [= <- <-]|].
    destruct (ReplayBlocks _ _ _ _) as [[h2 p] [e|]]; simpl;
      [by intros [= <- <-]|].
    destruct (deref h2 p); simpl; intros [= <- <-]; [by edestruct Hfail|done].
Qed.

(** The error of [lastSavedState] never reaches the caller of
    [loadHotStateBySlot]: with no ancestor snapshot the call fails with the
    error of [lastSavedBlock], or else panics on the nil start state. *)
Lemma loadHotStateBySlot_drops_error (w : World) (slot : uint64) (h1 : Heap)
    (e : Error) :
  lastSavedState (beaconDB w) (heap w) slot = (h1, None, Some e) →
  loadHotStateBySlot slot w =
    (set_heap h1 w,
     match (lastSavedBlock (beaconDB w) slot).2 with
     | Some e2 =>
         Err (errWrap e2 "could not get last valid block for hot state using slot")
     | None => Panic
     end).
Proof.
  intros Hlast. unfold loadHotStateBySlot. run. rewrite Hlast. simpl.
  destruct (lastSavedBlock _ _) as [[root s] [e2|]]; done.
Qed.

(** [saveHotState] puts the caller's pointer in the cache and allocates no
    copy. *)
Lemma saveHotState_caches_pointer (w w' : World) (blockRoot : Bytes32) (state : Ptr) :
  HotStateCache.Has (hotStateCache w) blockRoot = false →
  saveHotState blockRoot state w = (w', Ok tt) →
  HotStateCache.lookup (hotStateCache w') blockRoot = Some state
  ∧ heap w' = heap w.
Proof.
  intros Hmiss Hsave.
  destruct (saveHotState_fresh_inv _ _ _ _ Hmiss Hsave)
    as (st & _ & Hheap & _ & Hcache & _).
  split; [|done]. rewrite Hcache. apply lookup_Put.
Qed.

End StategenFacts.

(** ** The service on the reference chain *)

Section ScenarioFacts.

Import stategen scenario.

(** Saving the slot-32 snapshot under [R 0] on the fresh service: slot 32
    is a multiple of 32, so the full snapshot is persisted. *)
Lemma saveHotState_boundary_correct_witness :
  HotStateCache.Has (hotStateCache fresh) (R 0) = false
  ∧ ∃ st, deref (heap fresh) (Some 0%nat) = Some st
      ∧ db_states (beaconDB (@saveHotState chain (R 0) (Some 0%nat) fresh).1)
          !! R 0 = Some st
      ∧ (N.pos (@SlotsPerEpoch chain) | st_slot st).
Proof.
  assert (Hmiss : HotStateCache.Has (hotStateCache fresh) (R 0) = false)
    by reflexivity.
  assert (Hsave : @saveHotState chain (R 0) (Some 0%nat) fresh
                  = ((@saveHotState chain (R 0) (Some 0%nat) fresh).1, Ok tt))
    by (vm_compute; reflexivity).
  split; [exact Hmiss|].
  destruct (@saveHotState_boundary_correct chain fresh _ (R 0) (Some 0%nat)
              Hmiss Hsave)
    as (st & Hst & _ & _ & _ & Hiff).
  exists st. split; [exact Hst|].
  assert (Hnone : db_states (beaconDB fresh) !! R 0 = None) by reflexivity.
  assert (Hdiv : (N.pos (@SlotsPerEpoch chain) | st_slot st)).
  { injection Hst as <-. exists 1. reflexivity. }
  split; [|exact Hdiv].
  apply (proj2 (Hiff Hnone)), Hdiv.
Defined.

(** The spec's example: after the cache has lost [R 8], loading it finds
    the slot-32 snapshot, replays the blocks of slots 33..40 and returns
    the state at the fresh address 3, whose copy at address 4 is cached. *)
Lemma loadHotStateByRoot_boundary_or_replay_witness :
  HotStateCache.Has (hotStateCache evicted) (R 8) = false
  ∧ (@loadHotStateByRoot chain (R 8) evicted).2 = Ok (Some 3%nat)
  ∧ heap (@loadHotStateByRoot chain (R 8) evicted).1 !! 3%nat = Some S40.
Proof.
  split; [reflexivity|].
  destruct (@loadHotStateByRoot_boundary_or_replay chain evicted (R 8)
              {| summary_Slot := 40; summary_Root := R 8 |}
              (heap evicted ++ [S32]) (Some 2%nat) S32)
    as [_ Hreplay]; try (vm_compute; reflexivity).
  rewrite (Hreplay ltac:(discriminate)
             (block_at <$> [1; 2; 3; 4; 5; 6; 7; 8])
             (heap evicted ++ [S32; S40]) (Some 3%nat) S40);
    try (vm_compute; reflexivity).
  split; reflexivity.
Defined.

(** A second save of [R 8] on the service that already saved it. *)
Lemma saveHotState_idempotent_witness :
  HotStateCache.Has (hotStateCache saved) (R 8) = true
  ∧ @saveHotState chain (R 8) (Some 1%nat) saved = (saved, Ok tt).
Proof.
  split; [reflexivity|].
  destruct (@saveHotState_idempotent chain saved (R 8) (Some 1%nat) (Some 1%nat))
    as [Hcached _].
  apply Hcached. reflexivity.
Defined.

(** The slot-40 snapshot is not below the split slot 32: the hot save. *)
Lemma SaveState_routes_by_split_witness :
  deref (heap fresh) (Some 1%nat) = Some S40
  ∧ splitInfo_slot fresh ≤ st_slot S40
  ∧ @SaveState chain (R 8) (Some 1%nat) fresh
    = @saveHotState chain (R 8) (Some 1%nat) fresh.
Proof.
  assert (Hst : deref (heap fresh) (Some 1%nat) = Some S40) by reflexivity.
  assert (Hge : splitInfo_slot fresh ≤ st_slot S40)
    by (vm_compute; discriminate).
  split; [exact Hst|]. split; [exact Hge|].
  destruct (@SaveState_routes_by_split chain fresh (R 8) (Some 1%nat) S40 Hst)
    as [_ Hhot].
  apply Hhot, Hge.
Defined.

(** No pointer was ever saved for [R 3]. *)
Lemma loadHotStateByRoot_unknown_summary_witness :
  @loadHotStateByRoot chain (R 3) evicted = (evicted, Err errUnknownStateSummary).
Proof.
  apply (@loadHotStateByRoot_unknown_summary chain evicted (R 3));
    vm_compute; reflexivity.
Defined.

(** On the store whose block reads fail, loading [R 8] fails and the cache
    stays empty. *)
Lemma loadHotStateByRoot_failure_keeps_cache_witness :
  ∃ w', @loadHotStateByRoot chain_unreadable_blocks (R 8) evicted =
          (w', Err (errWrap (errNew "store: read failed")
                      "could not load blocks for hot state using root"))
        ∧ hotStateCache w' = hotStateCache evicted
        ∧ beaconDB w' = beaconDB evicted.
Proof.
  destruct (@loadHotStateByRoot_failure_keeps_cache chain_unreadable_blocks
              evicted (R 8) {| summary_Slot := 40; summary_Root := R 8 |}
              (heap evicted ++ [S32]) (Some 2%nat) S32)
    as [Hload _]; try (vm_compute; reflexivity).
  - vm_compute. discriminate.
  - apply (Hload [] (errNew "store: read failed")). reflexivity.
Defined.

(** C4.  The store of the fresh service holds blocks but no snapshot, so
    no boundary snapshot is persisted at or below slot 36 and
    [lastSavedState] fails; [loadHotStateBySlot 36] does not return that
    error: it goes on with the nil start state and panics.  On the blank
    store, where [lastSavedBlock] fails as well, the error returned is the
    one of [lastSavedBlock]. *)
Theorem loadHotStateBySlot_swallows_ancestor_error :
  (db_states (beaconDB fresh) = ∅
   ∧ lastSavedState (beaconDB fresh) (heap fresh) 36
     = (heap fresh, None, Some (errNew "no valid ancestor"))
   ∧ @loadHotStateBySlot chain 36 fresh = (fresh, Panic))
  ∧ (db_states (beaconDB blank) = ∅
     ∧ lastSavedState (beaconDB blank) (heap blank) 36
       = (heap blank, None, Some (errNew "no valid ancestor"))
     ∧ @loadHotStateBySlot chain 36 blank
       = (blank,
          Err (errWrap (errNew "no saved block")
                 "could not get last valid block for hot state using slot"))).
Proof. repeat split. Qed.

(** C8.  [saveHotState (R 8)] with the caller's snapshot at address 1 puts
    that very address in the cache; when the caller then writes slot 41
    into its snapshot, the cache is untouched and yet the state its entry
    for [R 8] refers to has changed from slot 40 to slot 41. *)
Theorem saveHotState_cache_aliases_caller :
  let w1 := (@saveHotState chain (R 8) (Some 1%nat) fresh).1 in
  let w2 := (SetSlot (Some 1%nat) 41 w1).1 in
  (@saveHotState chain (R 8) (Some 1%nat) fresh).2 = Ok tt
  ∧ HotStateCache.lookup (hotStateCache w1) (R 8) = Some (Some 1%nat)
  ∧ hotStateCache w2 = hotStateCache w1
  ∧ (HotStateCache.lookup (hotStateCache w1) (R 8) ≫= deref (heap w1)) = Some S40
  ∧ (HotStateCache.lookup (hotStateCache w2) (R 8) ≫= deref (heap w2))
    = Some {| st_slot := 41; st_body := st_body S40 |}.
Proof. repeat split. Qed.

(** The sibling path: the entry [loadHotStateByRoot] caches is a copy, so
    the same write through the returned pointer leaves the cached state
    at slot 40. *)
Lemma loadHotStateByRoot_cache_does_not_alias :
  let r := @loadHotStateByRoot chain (R 8) evicted in
  let w2 := (SetSlot (match r.2 with Ok p => p | _ => None end) 41 r.1).1 in
  r.2 = Ok (Some 3%nat)
  ∧ HotStateCache.lookup (hotStateCache r.1) (R 8) = Some (Some 4%nat)
  ∧ (HotStateCache.lookup (hotStateCache w2) (R 8) ≫= deref (heap w2)) = Some S40.
Proof. repeat split. Qed.

End ScenarioFacts.

(** ** slasher/detection *)

Section DetectionFacts.

Import detection.

Context `{!Collaborators}.

#[local] Arguments HashProto : simpl never.

(** The hash of a slashing and whether hashing it succeeds. *)
Local Abbreviation hash_of := (λ ss : AttesterSlashing, (HashProto (Some ss)).1).
Local Abbreviation hashes := (λ ss : AttesterSlashing, (HashProto (Some ss)).2 = None).

(** The invariant of the second loop: the kept slashings have pairwise
    different hashes, and every one of these hashes is a key. *)
Lemma dedup_loop_NoDup (slashings : list AttesterSlashing) :
  ∀ (keys : gmap Bytes32 bool) (slashingList out : list AttesterSlashing),
    NoDup (hash_of <$> slashingList) →
    (∀ x, x ∈ hash_of <$> slashingList → is_Some (keys !! x)) →
    Forall hashes slashingList →
    dedup_loop slashings keys slashingList = Ok out →
    NoDup (hash_of <$> out) ∧ Forall hashes out.
Proof.
  induction slashings as [|ss rest IH]; intros keys sl out Hnd Hkeys Hok; simpl.
  - intros [= <-]. done.
  - destruct (HashProto (Some ss)) as [hash err] eqn:Hhash.
    destruct err as [e|]; [discriminate|].
    destruct (keys !! hash) as [b|] eqn:Hkey.
    + apply IH; done.
    + apply IH.
      * rewrite fmap_app. apply NoDup_app. split; [done|]. split.
        -- intros x Hx Hx'. simpl in Hx'. rewrite Hhash in Hx'. simpl in Hx'.
           apply list_elem_of_singleton in Hx'. subst x.
           destruct (Hkeys _ Hx) as [b Hb]. congruence.
        -- simpl. apply NoDup_singleton.
      * intros x. rewrite fmap_app, elem_of_app. simpl. rewrite Hhash. simpl.
        rewrite list_elem_of_singleton. intros [Hx| ->].
        -- destruct (decide (hash = x)) as [->|Hne].
           ++ rewrite lookup_insert_eq. eauto.
           ++ rewrite lookup_insert_ne by done. by apply Hkeys.
        -- rewrite lookup_insert_eq. eauto.
      * apply Forall_app. split; [done|]. apply Forall_singleton.
        by rewrite Hhash.
Qed.

(** The kept slashings are among the detected ones. *)
Lemma dedup_loop_subseteq (slashings : list AttesterSlashing) :
  ∀ (keys : gmap Bytes32 bool) (slashingList out : list AttesterSlashing),
    dedup_loop slashings keys slashingList = Ok out →
    out ⊆ slashingList ++ slashings.
Proof.
  induction slashings as [|ss rest IH]; intros keys sl out; simpl.
  - intros [= <-]. by rewrite app_nil_r.
  - destruct (HashProto (Some ss)) as [hash [e|]]; [discriminate|].
    destruct (keys !! hash); intros Hrun; apply IH in Hrun.
    + intros x Hx. apply Hrun in Hx.
      rewrite elem_of_app in Hx. rewrite elem_of_app, elem_of_cons. tauto.
    + rewrite <- app_assoc in Hrun. done.
Qed.

(** C9.  The list a successful [DetectAttesterSlashings] returns is free
    of duplicates: every element hashes, and no two positions hold
    slashings of equal [HashProto]. *)
Theorem DetectAttesterSlashings_no_duplicates (db db' : SlasherDB)
    (att : IndexedAttestation) (slashingList : list AttesterSlashing) :
  DetectAttesterSlashings db att = (db', Ok slashingList) →
  Forall hashes slashingList
  ∧ NoDup (hash_of <$> slashingList)
  ∧ ∀ (i j : nat) (s1 s2 : AttesterSlashing),
      slashingList !! i = Some s1 → slashingList !! j = Some s2 →
      hash_of s1 = hash_of s2 → i = j.
Proof.
  intros Hrun.
  assert (NoDup (hash_of <$> slashingList) ∧ Forall hashes slashingList)
    as [Hnd Hok].
  { revert Hrun. unfold DetectAttesterSlashings.
    destruct (DetectSlashingsForAttestation att) as [results [e|]];
      [discriminate|].
    destruct (length results =? 0)%nat.
    { intros [= _ <-]. split; [constructor|done]. }
    destruct (detect_loop db att results []) as [slashings|e|]; try discriminate.
    destruct (dedup_loop slashings ∅ []) as [out|e|] eqn:Hdedup;
      try discriminate.
    destruct (SaveAttesterSlashings db Active slashings) as [db1 [e|]];
      [discriminate|].
    intros [= _ <-].
    apply (dedup_loop_NoDup slashings ∅ [] out); try done.
    - constructor.
    - intros x Hx. by apply elem_of_nil in Hx. }
  split; [done|]. split; [done|].
  intros i j s1 s2 Hi Hj Heq.
  apply (NoDup_lookup _ i j (hash_of s1) Hnd).
  - by rewrite list_lookup_fmap, Hi.
  - rewrite list_lookup_fmap, Hj. simpl. by rewrite Heq.
Qed.

End DetectionFacts.

(** The double vote of validators 7 and 9 is detected twice, the store
    receives both copies, and the returned list holds the slashing once. *)
Lemma DetectAttesterSlashings_no_duplicates_witness :
  @detection.DetectAttesterSlashings double_vote.service [] double_vote.incoming
  = ([(detection.Active, double_vote.slashing);
      (detection.Active, double_vote.slashing)],
     Ok [double_vote.slashing])
  ∧ NoDup ((λ ss, (@detection.HashProto double_vote.service (Some ss)).1)
             <$> [double_vote.slashing]).
Proof.
  assert (Hrun :
    @detection.DetectAttesterSlashings double_vote.service []
      double_vote.incoming
    = ([(detection.Active, double_vote.slashing);
        (detection.Active, double_vote.slashing)],
       Ok [double_vote.slashing])) by (vm_compute; reflexivity).
  split; [exact Hrun|].
  apply (@DetectAttesterSlashings_no_duplicates double_vote.service _ _ _ _ Hrun).
Defined.

(** * Further properties *)

(** ** shared/hashutil: composition and the pooled hasher *)

Section HashutilMore.

Variable sha256 : list byte → Bytes32.

Local Abbreviation Hash := (hashutil.Hash sha256).
Local Abbreviation RepeatHash := (hashutil.RepeatHash sha256).

(** X1.  Hashing [m] times and then [n] times is hashing [m + n] times. *)
Theorem RepeatHash_add (d : Bytes32) (m n : N) :
  RepeatHash (RepeatHash d m) n = RepeatHash d (m + n).
Proof.
  rewrite !RepeatHash_iter. unfold hashutil.iterated_Hash.
  rewrite N.add_comm. symmetry. apply N.iter_add.
Qed.

(** X2.  With a digest of 32 bytes, [RepeatHash] takes 32-byte arrays to
    32-byte arrays, however often it hashes. *)
Theorem RepeatHash_keeps_length (d : Bytes32) (n : N) :
  (∀ x, length (sha256 x) = 32%nat) →
  length d = 32%nat → length (RepeatHash d n) = 32%nat.
Proof. intros Hsha Hd. by apply RepeatHash_length. Qed.

(** X3.  Whatever state the pooled hasher was left in, [Hash] and
    [HashKeccak256] return the digest of [data] alone: the [Reset] before
    [Write] keeps earlier users of the pool out of the result. *)
Theorem pooled_Hash_ignores_pool (keccak256 : list byte → Bytes32)
    (pooled data : list byte) :
  (∀ x, length (sha256 x) = 32%nat) →
  (∀ x, length (keccak256 x) = 32%nat) →
  (hashpool.Hash sha256 pooled data).1 = Hash data
  ∧ (hashpool.HashKeccak256 keccak256 pooled data).1 = keccak256 data.
Proof.
  intros Hsha Hkec. unfold hashpool.Hash, hashpool.HashKeccak256,
    hashpool.Reset, hashpool.Write. simpl. split.
  - unfold hashpool.sum_into_array, hashpool.Sum. simpl.
    rewrite Hsha. rewrite decide_True by lia. simpl. apply app_nil_r.
  - unfold hashpool.sum_into_array, hashpool.Sum. simpl.
    rewrite Hkec. rewrite decide_True by lia. simpl. apply app_nil_r.
Qed.

Lemma custom_call_Hash (pooled data : list byte) :
  hashpool.custom_call sha256 [] data
  = ((hashpool.Hash sha256 pooled data).1, []).
Proof. reflexivity. Qed.

(** X4.  The function [CustomSHA256Hasher] returns agrees with [Hash] on
    every call of any sequence of calls, and leaves its hasher reset. *)
Theorem custom_calls_agree_with_Hash (pooled pooled' : list byte)
    (inputs : list (list byte)) :
  hashpool.custom_calls sha256 (hashpool.CustomSHA256Hasher pooled) inputs
  = ((λ data, (hashpool.Hash sha256 pooled' data).1) <$> inputs, []).
Proof.
  unfold hashpool.CustomSHA256Hasher, hashpool.Reset.
  induction inputs as [|data rest IH]; [reflexivity|].
  cbn [hashpool.custom_calls].
  rewrite (custom_call_Hash pooled' data), IH. reflexivity.
Qed.

End HashutilMore.

(** Four rounds on the toy digest that pads to 32 bytes. *)
Lemma RepeatHash_keeps_length_witness :
  length (hashutil.RepeatHash ToBytes32 (replicate 32 x07) 4) = 32%nat.
Proof.
  apply (RepeatHash_keeps_length ToBytes32 (replicate 32 x07) 4).
  - apply ToBytes32_length.
  - reflexivity.
Defined.

(** A hasher left with three bytes by its last user. *)
Lemma pooled_Hash_ignores_pool_witness :
  (hashpool.Hash ToBytes32 [x01; x02; x03] [x09]).1
  = hashutil.Hash ToBytes32 [x09].
Proof.
  destruct (pooled_Hash_ignores_pool ToBytes32 ToBytes32 [x01; x02; x03] [x09])
    as [Hsha _]; [apply ToBytes32_length|apply ToBytes32_length|exact Hsha].
Defined.

(** ** beacon-chain/flags *)

Section FlagsFacts.

Import flags.

Context `{!FlagNames}.

Local Open Scope Z_scope.

Lemma configureMinimumPeers_min (ctx : Context) (cfg : GlobalFlags) :
  configureMinimumPeers ctx cfg
  = set_MinimumSyncPeers
      (Z.min (ctx_Int ctx MinSyncPeers) (ctx_Int64 ctx P2PMaxPeers)) cfg.
Proof.
  unfold configureMinimumPeers. cbn [MinimumSyncPeers set_MinimumSyncPeers].
  destruct (Z.ltb_spec (ctx_Int64 ctx P2PMaxPeers) (ctx_Int ctx MinSyncPeers)).
  - rewrite Z.min_r by lia. reflexivity.
  - rewrite Z.min_l by lia. reflexivity.
Qed.

(** X5.  [configureMinimumPeers] sets the minimum of sync peers to the
    requested number capped by the maximum of peers, and changes no other
    field of the flags. *)
Theorem configureMinimumPeers_caps (ctx : Context) (cfg : GlobalFlags) :
  let cfg' := configureMinimumPeers ctx cfg in
  MinimumSyncPeers cfg'
  = Z.min (ctx_Int ctx MinSyncPeers) (ctx_Int64 ctx P2PMaxPeers)
  ∧ set_MinimumSyncPeers (MinimumSyncPeers cfg) cfg' = cfg.
Proof.
  cbv zeta. rewrite configureMinimumPeers_min. split; [reflexivity|].
  by destruct cfg.
Qed.

(** X6.  After [ConfigureGlobalFlags], whatever the configuration was
    before, [Get] returns flags that mirror the command line, with a
    minimum of sync peers that exceeds neither the requested number nor
    the maximum of peers. *)
Theorem ConfigureGlobalFlags_Get (ctx : Context) :
  let cfg := Get (ConfigureGlobalFlags ctx) in
  EnableArchive cfg = ctx_Bool ctx ArchiveEnableFlag
  ∧ EnableArchivedValidatorSetChanges cfg
    = ctx_Bool ctx ArchiveValidatorSetChangesFlag
  ∧ EnableArchivedBlocks cfg = ctx_Bool ctx ArchiveBlocksFlag
  ∧ EnableArchivedAttestations cfg = ctx_Bool ctx ArchiveAttestationsFlag
  ∧ UnsafeSync cfg = ctx_Bool ctx UnsafeSyncFlag
  ∧ EnableDiscv5 cfg = ctx_Bool ctx EnableDiscv5Flag
  ∧ MaxPageSize cfg = ctx_Int ctx RPCMaxPageSize
  ∧ DeploymentBlock cfg = ctx_Int ctx ContractDeploymentBlock
  ∧ MinimumSyncPeers cfg ≤ ctx_Int64 ctx P2PMaxPeers
  ∧ MinimumSyncPeers cfg ≤ ctx_Int ctx MinSyncPeers.
Proof.
  cbv zeta. unfold ConfigureGlobalFlags, Init, Get.
  rewrite configureMinimumPeers_min. cbn.
  repeat split; try (by destruct (ctx_Bool ctx _)); lia.
Qed.

End FlagsFacts.

(** Eight sync peers are asked for and five peers allowed: five it is. *)
Lemma ConfigureGlobalFlags_command_line :
  flags.Get (@flags.ConfigureGlobalFlags flags.names flags.command_line)
  = {| flags.EnableArchive := true;
       flags.EnableArchivedValidatorSetChanges := false;
       flags.EnableArchivedBlocks := false;
       flags.EnableArchivedAttestations := false;
       flags.MinimumSyncPeers := 5;
       flags.MaxPageSize := 500;
       flags.DeploymentBlock := 500;
       flags.UnsafeSync := false;
       flags.EnableDiscv5 := false |}.
Proof. reflexivity. Qed.

(** ** beacon-chain/state/stategen: failures, invariants and round trips *)

Section StategenMore.

Import stategen hotstore.

Context `{!Collaborators}.

Ltac run :=
  unfold bind, check, check_wrap, ret, throw, hotStateCache_Has,
    hotStateCache_Get, hotStateCache_Put, beaconDB_SaveState,
    beaconDB_SaveStateSummary, beaconDB_StateSummary, call_lastSavedState,
    call_lastSavedBlock, call_LoadBlocks, call_ReplayBlocks, Slot, Copy,
    splitInfo_slot_read, alloc;
  simpl.

(** The store with a full snapshot added under a root. *)
Local Abbreviation with_state := (λ (d : DB) (root : Bytes32) (st : BeaconState),
  {| db_states := <[root := st]> (db_states d);
     db_summaries := db_summaries d;
     db_blocks := db_blocks d |}).

(** The store with a checkpoint pointer added under a root. *)
Local Abbreviation with_pointer := (λ (d : DB) (root : Bytes32) (slot : uint64),
  {| db_states := db_states d;
     db_summaries :=
       <[root := {| summary_Slot := slot; summary_Root := root |}]>
         (db_summaries d);
     db_blocks := db_blocks d |}).

(** Every way a hot save can end: what it returns, and what has become of
    the store and of the cache by then. *)
Lemma saveHotState_cases (w w' : World) (blockRoot : Bytes32) (state : Ptr)
    (o : Outcome unit) :
  saveHotState blockRoot state w = (w', o) →
  (w' = w ∧ (o = Panic ∨ (∃ e, o = Err e)
             ∨ (o = Ok tt ∧ HotStateCache.Has (hotStateCache w) blockRoot = true)))
  ∨ ∃ st, deref (heap w) state = Some st
      ∧ HotStateCache.Has (hotStateCache w) blockRoot = false
      ∧ ((IsEpochStart (st_slot st) = true
          ∧ (∃ e, o = Err e)
          ∧ w' = set_beaconDB (with_state (beaconDB w) blockRoot st) w)
         ∨ (o = Ok tt
            ∧ w' = set_hotStateCache
                     (HotStateCache.Put hotStateCacheSize (hotStateCache w)
                        blockRoot state)
                     (set_beaconDB
                        (with_pointer
                           (if IsEpochStart (st_slot st)
                            then with_state (beaconDB w) blockRoot st
                            else beaconDB w)
                           blockRoot (st_slot st)) w))).
Proof.
  unfold saveHotState. run.
  destruct (HotStateCache.Has (hotStateCache w) blockRoot) eqn:Hhas; simpl.
  { intros [= <- <-]. left. eauto 6. }
  destruct (deref (heap w) state) as [st|] eqn:Hst; simpl.
  2: { intros [= <- <-]. left. eauto. }
  destruct (IsEpochStart (st_slot st)) eqn:Hstart; simpl; rewrite ?Hst; simpl.
  - destruct (SaveState_fault _ _ _) as [e|]; simpl.
    { intros [= <- <-]. left. eauto 6. }
    rewrite Hst. simpl.
    destruct (SaveStateSummary_fault _ _) as [e|]; simpl; intros [= <- <-];
      right; exists st; (split; [done|]); (split; [done|]).
    + left. eauto.
    + right. rewrite Hstart. split; reflexivity.
  - destruct (SaveStateSummary_fault _ _) as [e|]; simpl; intros [= <- <-].
    + left. eauto 6.
    + right. exists st. split; [done|]. split; [done|].
      right. rewrite Hstart. split; reflexivity.
Qed.

(** X7.  A hot save that does not succeed caches nothing, persists no
    checkpoint pointer and leaves heap and split slot alone. *)
Theorem saveHotState_failure_keeps_cache (w w' : World) (blockRoot : Bytes32)
    (state : Ptr) (o : Outcome unit) :
  saveHotState blockRoot state w = (w', o) →
  o ≠ Ok tt →
  hotStateCache w' = hotStateCache w
  ∧ db_summaries (beaconDB w') = db_summaries (beaconDB w)
  ∧ heap w' = heap w
  ∧ splitInfo_slot w' = splitInfo_slot w.
Proof.
  intros Hrun Hfail.
  destruct (saveHotState_cases _ _ _ _ _ Hrun)
    as [[-> _]|(st & _ & _ & [(_ & _ & ->)|[-> _]])]; done.
Qed.

(** X8.  On a boundary slot the full snapshot is written before the
    checkpoint pointer: when the pointer write fails, the call returns that
    error with the full snapshot already in the store, no pointer and no
    cache entry. *)
Theorem saveHotState_partial_write (w : World) (blockRoot : Bytes32)
    (state : Ptr) (st : BeaconState) (e : Error) :
  HotStateCache.Has (hotStateCache w) blockRoot = false →
  deref (heap w) state = Some st →
  (N.pos SlotsPerEpoch | st_slot st) →
  SaveState_fault (beaconDB w) st blockRoot = None →
  SaveStateSummary_fault (with_state (beaconDB w) blockRoot st)
    {| summary_Slot := st_slot st; summary_Root := blockRoot |} = Some e →
  saveHotState blockRoot state w
  = (set_beaconDB (with_state (beaconDB w) blockRoot st) w, Err e).
Proof.
  intros Hmiss Hst Hdiv Hsave Hsum.
  apply IsEpochStart_divide in Hdiv.
  unfold saveHotState. run. rewrite Hmiss, Hst. simpl. rewrite Hdiv. simpl.
  rewrite Hst, Hsave. simpl. rewrite Hst. simpl. by rewrite Hsum.
Qed.

(** X9.  However a hot save ends, the store still files every checkpoint
    pointer under the root it names and still holds full snapshots on
    epoch-boundary slots only. *)
Theorem saveHotState_keeps_store_invariants (w w' : World) (blockRoot : Bytes32)
    (state : Ptr) (o : Outcome unit) :
  pointers_keyed (beaconDB w) →
  boundary_only SlotsPerEpoch (beaconDB w) →
  saveHotState blockRoot state w = (w', o) →
  pointers_keyed (beaconDB w') ∧ boundary_only SlotsPerEpoch (beaconDB w').
Proof.
  intros Hkeyed Hbound Hrun.
  assert (∀ st, IsEpochStart (st_slot st) = true →
            boundary_only SlotsPerEpoch (with_state (beaconDB w) blockRoot st))
    as Hbound'.
  { intros st Hstart root st'. simpl.
    destruct (decide (blockRoot = root)) as [->|Hne].
    - rewrite lookup_insert_eq. intros [= <-]. by apply IsEpochStart_divide.
    - rewrite lookup_insert_ne by done. apply Hbound. }
  destruct (saveHotState_cases _ _ _ _ _ Hrun)
    as [[-> _]|(st & _ & _ & [(Hstart & _ & ->)|[_ ->]])]; [done|..].
  - split; [exact Hkeyed|]. by apply Hbound'.
  - split.
    + intros root s. simpl.
      destruct (decide (blockRoot = root)) as [->|Hne].
      * rewrite lookup_insert_eq. by intros [= <-].
      * rewrite lookup_insert_ne by done.
        destruct (IsEpochStart (st_slot st)); apply Hkeyed.
    + destruct (IsEpochStart (st_slot st)) eqn:Hstart; [by apply Hbound'|done].
Qed.

(** A hit of the cache on an entry that is a live state: the entry moves to
    the front, the caller gets a copy at a fresh address, and neither store
    nor replay is consulted. *)
Lemma loadHotStateByRoot_hit (w : World) (blockRoot : Bytes32) (p : Ptr)
    (st : BeaconState) :
  HotStateCache.lookup (hotStateCache w) blockRoot = Some p →
  deref (heap w) p = Some st →
  loadHotStateByRoot blockRoot w
  = ({| heap := heap w ++ [st];
        hotStateCache :=
          (blockRoot, p) :: HotStateCache.remove (hotStateCache w) blockRoot;
        beaconDB := beaconDB w;
        splitInfo_slot := splitInfo_slot w |},
     Ok (Some (length (heap w)))).
Proof.
  intros Hlook Hst. unfold loadHotStateByRoot. run.
  unfold HotStateCache.Get. rewrite Hlook, Hst. reflexivity.
Qed.

Lemma deref_lt (h : Heap) (p : Ptr) (st : BeaconState) :
  deref h p = Some st → ∃ l, p = Some l ∧ (l < length h)%nat.
Proof.
  destruct p as [l|]; [|discriminate]. simpl. intros Hl.
  exists l. split; [done|]. by eapply lookup_lt_Some.
Qed.

Lemma deref_alloc_old (h : Heap) (p : Ptr) (st st' : BeaconState) :
  deref h p = Some st → deref (h ++ [st']) p = Some st.
Proof.
  destruct p as [l|]; [|discriminate]. simpl. intros Hl.
  rewrite lookup_app_l; [done|]. by eapply lookup_lt_Some.
Qed.

Lemma deref_alloc_new (h : Heap) (st : BeaconState) :
  deref (h ++ [st]) (Some (length h)) = Some st.
Proof. simpl. by rewrite list_lookup_middle. Qed.

(** X10.  Round trip: after a successful hot save of a root that was not
    cached, loading that root returns a state with the saved contents at an
    address that is not the caller's, and does not touch the store. *)
Theorem saveHotState_then_load (w w1 : World) (blockRoot : Bytes32) (state : Ptr) :
  HotStateCache.Has (hotStateCache w) blockRoot = false →
  saveHotState blockRoot state w = (w1, Ok tt) →
  ∃ (w2 : World) (q : Ptr) (st : BeaconState),
    loadHotStateByRoot blockRoot w1 = (w2, Ok q)
    ∧ deref (heap w) state = Some st
    ∧ deref (heap w2) q = Some st
    ∧ deref (heap w2) state = Some st
    ∧ q ≠ state
    ∧ beaconDB w2 = beaconDB w1.
Proof.
  intros Hmiss Hsave.
  destruct (saveHotState_fresh_inv _ _ _ _ Hmiss Hsave)
    as (st & Hst & Hheap & _ & Hcache & _).
  assert (HotStateCache.lookup (hotStateCache w1) blockRoot = Some state)
    as Hlook by (rewrite Hcache; apply lookup_Put).
  assert (deref (heap w1) state = Some st) as Hst1 by (by rewrite Hheap).
  eexists _, _, st. split; [apply (loadHotStateByRoot_hit _ _ _ _ Hlook Hst1)|].
  simpl. rewrite Hheap. split; [done|]. split; [apply deref_alloc_new|].
  split; [by apply deref_alloc_old|]. split; [|done].
  destruct (deref_lt _ _ _ Hst) as (l & -> & Hl). intros [= Heq]. lia.
Qed.

(** X11.  When [lastSavedState] reports no error and no snapshot either,
    [loadHotStateByRoot] fails with [errUnknownBoundaryState]; cache and
    store are as before. *)
Theorem loadHotStateByRoot_unknown_boundary (w : World) (blockRoot : Bytes32)
    (summary : StateSummary) (h1 : Heap) :
  HotStateCache.Has (hotStateCache w) blockRoot = false →
  StateSummary_fault (beaconDB w) blockRoot = None →
  db_summaries (beaconDB w) !! blockRoot = Some summary →
  lastSavedState (beaconDB w) (heap w)
    (StartSlot (SlotToEpoch (summary_Slot summary))) = (h1, None, None) →
  loadHotStateByRoot blockRoot w = (set_heap h1 w, Err errUnknownBoundaryState).
Proof.
  intros Hmiss Hfault Hsum Hlast. unfold loadHotStateByRoot. run.
  rewrite (Get_miss _ _ _ Hmiss), set_same. simpl.
  rewrite Hfault, Hsum. simpl. by rewrite Hlast.
Qed.

(** X12.  The error of the pointer lookup and the error of [lastSavedState]
    come back from [loadHotStateByRoot] as they are, not wrapped, and the
    cache and the store are as before. *)
Theorem loadHotStateByRoot_lookup_errors (w : World) (blockRoot : Bytes32) :
  HotStateCache.Has (hotStateCache w) blockRoot = false →
  (∀ e, StateSummary_fault (beaconDB w) blockRoot = Some e →
     loadHotStateByRoot blockRoot w = (w, Err e))
  ∧ (∀ (summary : StateSummary) (h1 : Heap) (p : Ptr) (e : Error),
       StateSummary_fault (beaconDB w) blockRoot = None →
       db_summaries (beaconDB w) !! blockRoot = Some summary →
       lastSavedState (beaconDB w) (heap w)
         (StartSlot (SlotToEpoch (summary_Slot summary))) = (h1, p, Some e) →
       loadHotStateByRoot blockRoot w = (set_heap h1 w, Err e)).
Proof.
  intros Hmiss. split.
  - intros e Hfault. unfold loadHotStateByRoot. run.
    rewrite (Get_miss _ _ _ Hmiss), set_same. simpl. by rewrite Hfault.
  - intros summary h1 p e Hfault Hsum Hlast. unfold loadHotStateByRoot. run.
    rewrite (Get_miss _ _ _ Hmiss), set_same. simpl.
    rewrite Hfault, Hsum. simpl. by rewrite Hlast.
Qed.

(** X13.  A load that succeeds after a cache miss leaves the root cached,
    and what it caches is a copy: the cached address differs from the
    returned one and both hold the same contents. *)
Theorem loadHotStateByRoot_miss_caches_copy (w w' : World) (blockRoot : Bytes32)
    (p : Ptr) :
  HotStateCache.Has (hotStateCache w) blockRoot = false →
  loadHotStateByRoot blockRoot w = (w', Ok p) →
  ∃ (q : Ptr) (st : BeaconState),
    HotStateCache.lookup (hotStateCache w') blockRoot = Some q
    ∧ q ≠ p
    ∧ deref (heap w') p = Some st
    ∧ deref (heap w') q = Some st.
Proof.
  intros Hmiss. unfold loadHotStateByRoot. run.
  rewrite (Get_miss _ _ _ Hmiss), set_same. simpl.
  destruct (StateSummary_fault _ _); simpl; [discriminate|].
  destruct (db_summaries _ !! _) as [summary|]; simpl; [|discriminate].
  destruct (lastSavedState _ _ _) as [[h1 startState] [e|]]; simpl;
    [discriminate|].
  destruct startState as [l|]; simpl; [|discriminate].
  destruct (h1 !! l) as [st|] eqn:Hl; simpl; [|discriminate].
  assert (∀ (h : Heap) (r : Ptr) (st' : BeaconState),
            deref h r = Some st' →
            ∃ (q : Ptr) (st0 : BeaconState),
              HotStateCache.lookup
                (HotStateCache.Put hotStateCacheSize (hotStateCache w)
                   blockRoot (Some (length h))) blockRoot = Some q
              ∧ q ≠ r
              ∧ deref (h ++ [st']) r = Some st0
              ∧ deref (h ++ [st']) q = Some st0) as Hcopy.
  { intros h r st' Hr. exists (Some (length h)), st'.
    split; [apply lookup_Put|]. split.
    - destruct (deref_lt _ _ _ Hr) as (l' & -> & Hlt). intros [= Heq]. lia.
    - split; [by apply deref_alloc_old|apply deref_alloc_new]. }
  destruct (summary_Slot summary =? st_slot st); simpl.
  - rewrite Hl. simpl. intros [= <- <-]. exact (Hcopy h1 (Some l) st Hl).
  - destruct (LoadBlocks _ _ _ _) as [blks [e|]]; simpl; [discriminate|].
    destruct (ReplayBlocks _ _ _ _) as [[h2 r] [e|]]; simpl; [discriminate|].
    destruct (deref h2 r) as [st'|] eqn:Hr; simpl; [|discriminate].
    intros [= <- <-]. exact (Hcopy h2 r st' Hr).
Qed.

(** X14.  Neither load writes the store or moves the split slot, and
    [loadHotStateBySlot], unlike [loadHotStateByRoot], never touches the hot
    state cache: what it rebuilds is not cached. *)
Theorem loads_write_nothing (w : World) (blockRoot : Bytes32) (slot : uint64) :
  beaconDB (loadHotStateByRoot blockRoot w).1 = beaconDB w
  ∧ splitInfo_slot (loadHotStateByRoot blockRoot w).1 = splitInfo_slot w
  ∧ beaconDB (loadHotStateBySlot slot w).1 = beaconDB w
  ∧ splitInfo_slot (loadHotStateBySlot slot w).1 = splitInfo_slot w
  ∧ hotStateCache (loadHotStateBySlot slot w).1 = hotStateCache w.
Proof.
  assert (beaconDB (loadHotStateByRoot blockRoot w).1 = beaconDB w
          ∧ splitInfo_slot (loadHotStateByRoot blockRoot w).1 = splitInfo_slot w)
    as [Hdb Hsplit].
  { unfold loadHotStateByRoot. run.
    destruct (HotStateCache.Get _ _ _) as [[c h0] [l0|]]; simpl; [done|].
    destruct (StateSummary_fault _ _); simpl; [done|].
    destruct (db_summaries _ !! _) as [summary|]; simpl; [|done].
    destruct (lastSavedState _ _ _) as [[h1 startState] [e|]]; simpl; [done|].
    destruct startState as [l|]; simpl; [|done].
    destruct (h1 !! l) as [st|] eqn:Hl; simpl; [|done].
    destruct (summary_Slot summary =? st_slot st); simpl.
    - rewrite Hl. done.
    - destruct (LoadBlocks _ _ _ _) as [blks [e|]]; simpl; [done|].
      destruct (ReplayBlocks _ _ _ _) as [[h2 r] [e|]]; simpl; [done|].
      destruct (deref h2 r); done. }
  split; [done|]. split; [done|].
  unfold loadHotStateBySlot. run.
  destruct (lastSavedState _ _ _) as [[h1 startState] err0]; simpl.
  destruct (lastSavedBlock _ _) as [[root s] [e|]]; simpl; [done|].
  destruct (deref h1 startState) as [st|]; simpl; [|done].
  destruct (LoadBlocks _ _ _ _) as [blks [e|]]; simpl; [done|].
  destruct (ReplayBlocks _ _ _ _) as [[h2 r] [e|]]; done.
Qed.

(** X15.  With an ancestor snapshot in hand, [loadHotStateBySlot] wraps
    the error of [lastSavedBlock], returns the errors of [LoadBlocks] and
    [ReplayBlocks] as they are, and otherwise returns what replay makes of
    the blocks from the ancestor's slot + 1 to the last saved block; an
    error that [lastSavedState] reports beside the snapshot plays no part. *)
Theorem loadHotStateBySlot_paths (w : World) (slot : uint64) (h1 : Heap)
    (startState : Ptr) (err0 : option Error) (st : BeaconState)
    (lastValidRoot : Bytes32) (lastValidSlot : uint64) :
  lastSavedState (beaconDB w) (heap w) slot = (h1, startState, err0) →
  deref h1 startState = Some st →
  (∀ e, lastSavedBlock (beaconDB w) slot = (lastValidRoot, lastValidSlot, Some e) →
     loadHotStateBySlot slot w =
       (set_heap h1 w,
        Err (errWrap e "could not get last valid block for hot state using slot")))
  ∧ (lastSavedBlock (beaconDB w) slot = (lastValidRoot, lastValidSlot, None) →
     (∀ blks e,
        LoadBlocks (beaconDB w) (wrap64 (st_slot st + 1)) lastValidSlot
          lastValidRoot = (blks, Some e) →
        loadHotStateBySlot slot w = (set_heap h1 w, Err e))
     ∧ (∀ blks h2 p err,
          LoadBlocks (beaconDB w) (wrap64 (st_slot st + 1)) lastValidSlot
            lastValidRoot = (blks, None) →
          ReplayBlocks h1 startState blks slot = (h2, p, err) →
          loadHotStateBySlot slot w =
            (set_heap h2 w, match err with Some e => Err e | None => Ok p end))).
Proof.
  intros Hlast Hst. split; [|intros Hblock; split].
  - intros e Hblock. unfold loadHotStateBySlot. run.
    rewrite Hlast. simpl. by rewrite Hblock.
  - intros blks e Hload. unfold loadHotStateBySlot. run.
    rewrite Hlast. simpl. rewrite Hblock. simpl. rewrite Hst. simpl.
    by rewrite Hload.
  - intros blks h2 p err Hload Hreplay. unfold loadHotStateBySlot. run.
    rewrite Hlast. simpl. rewrite Hblock. simpl. rewrite Hst. simpl.
    rewrite Hload. simpl. rewrite Hreplay. by destruct err.
Qed.

(** X16.  [SaveState] of a snapshot at or above the split slot whose root
    is in the hot state cache does nothing and reports success. *)
Theorem SaveState_hot_cached (w : World) (root : Bytes32) (state : Ptr)
    (st : BeaconState) :
  deref (heap w) state = Some st →
  splitInfo_slot w ≤ st_slot st →
  HotStateCache.Has (hotStateCache w) root = true →
  SaveState root state w = (w, Ok tt).
Proof.
  intros Hst Hge Hhas. unfold SaveState. run. rewrite Hst.
  apply N.ltb_ge in Hge. rewrite Hge. by apply saveHotState_cached.
Qed.

End StategenMore.

(** ** Failures and round trips on the reference chain *)

Section ScenarioMore.

Import stategen scenario hotstore.

(** The boundary snapshot is saved on a store that cannot write pointers. *)
Lemma saveHotState_failure_keeps_cache_witness :
  hotStateCache (@saveHotState chain_pointer_fault (R 0) (Some 0%nat) fresh).1
  = hotStateCache fresh
  ∧ db_summaries
      (beaconDB (@saveHotState chain_pointer_fault (R 0) (Some 0%nat) fresh).1)
    = db_summaries (beaconDB fresh).
Proof.
  destruct (@saveHotState_failure_keeps_cache chain_pointer_fault fresh
              (@saveHotState chain_pointer_fault (R 0) (Some 0%nat) fresh).1
              (R 0) (Some 0%nat) (Err (errNew "store: write failed")))
    as (Hcache & Hsum & _).
  - vm_compute. reflexivity.
  - discriminate.
  - split; [exact Hcache|exact Hsum].
Defined.

Lemma saveHotState_partial_write_witness :
  (@saveHotState chain_pointer_fault (R 0) (Some 0%nat) fresh).2
  = Err (errNew "store: write failed")
  ∧ db_states
      (beaconDB (@saveHotState chain_pointer_fault (R 0) (Some 0%nat) fresh).1)
      !! R 0 = Some S32.
Proof.
  rewrite (@saveHotState_partial_write chain_pointer_fault fresh (R 0)
             (Some 0%nat) S32 (errNew "store: write failed")).
  - split; reflexivity.
  - reflexivity.
  - reflexivity.
  - exists 1. reflexivity.
  - reflexivity.
  - reflexivity.
Defined.

Lemma saveHotState_keeps_store_invariants_witness :
  pointers_keyed (beaconDB saved) ∧ boundary_only 32 (beaconDB saved).
Proof.
  assert (pointers_keyed (beaconDB fresh) ∧ boundary_only 32 (beaconDB fresh))
    as [Hk0 Hb0].
  { split; intros root x Hx; vm_compute in Hx; discriminate. }
  destruct (@saveHotState_keeps_store_invariants chain fresh
              (@saveHotState chain (R 0) (Some 0%nat) fresh).1
              (R 0) (Some 0%nat) (Ok tt) Hk0 Hb0)
    as [Hk1 Hb1]; [vm_compute; reflexivity|].
  apply (@saveHotState_keeps_store_invariants chain
           (@saveHotState chain (R 0) (Some 0%nat) fresh).1 saved
           (R 8) (Some 1%nat) (Ok tt) Hk1 Hb1).
  vm_compute. reflexivity.
Defined.

Lemma saveHotState_then_load_witness :
  ∃ (w2 : World) (q : Ptr),
    @loadHotStateByRoot chain (R 0)
      (@saveHotState chain (R 0) (Some 0%nat) fresh).1 = (w2, Ok q)
    ∧ deref (heap w2) q = Some S32
    ∧ q ≠ Some 0%nat.
Proof.
  destruct (@saveHotState_then_load chain fresh
              (@saveHotState chain (R 0) (Some 0%nat) fresh).1
              (R 0) (Some 0%nat))
    as (w2 & q & st & Hload & Hst & Hq & _ & Hne & _).
  - reflexivity.
  - vm_compute. reflexivity.
  - exists w2, q. split; [exact Hload|]. split; [|exact Hne].
    rewrite Hq. rewrite <- Hst. reflexivity.
Defined.

Lemma loadHotStateByRoot_unknown_boundary_witness :
  @loadHotStateByRoot chain_no_ancestor (R 8) evicted
  = (evicted, Err errUnknownBoundaryState).
Proof.
  rewrite (@loadHotStateByRoot_unknown_boundary chain_no_ancestor evicted (R 8)
             {| summary_Slot := 40; summary_Root := R 8 |} (heap evicted));
    try (vm_compute; reflexivity).
Defined.

(** The pointer of [R 8] is in the store, the boundary snapshot is not. *)
Lemma loadHotStateByRoot_lookup_errors_witness :
  @loadHotStateByRoot chain (R 8) pointers_only
  = (pointers_only, Err (errNew "no valid ancestor")).
Proof.
  destruct (@loadHotStateByRoot_lookup_errors chain pointers_only (R 8))
    as [_ Hlast]; [reflexivity|].
  rewrite (Hlast {| summary_Slot := 40; summary_Root := R 8 |}
             (heap pointers_only) None (errNew "no valid ancestor"));
    try (vm_compute; reflexivity).
Defined.

Lemma loadHotStateByRoot_miss_caches_copy_witness :
  ∃ (q : Ptr) (st : BeaconState),
    HotStateCache.lookup
      (hotStateCache (@loadHotStateByRoot chain (R 8) evicted).1) (R 8) = Some q
    ∧ q ≠ Some 3%nat
    ∧ deref (heap (@loadHotStateByRoot chain (R 8) evicted).1) (Some 3%nat)
      = Some st
    ∧ deref (heap (@loadHotStateByRoot chain (R 8) evicted).1) q = Some st.
Proof.
  apply (@loadHotStateByRoot_miss_caches_copy chain evicted
           (@loadHotStateByRoot chain (R 8) evicted).1 (R 8) (Some 3%nat)).
  - reflexivity.
  - vm_compute. reflexivity.
Defined.

(** Slot 36 of the reference chain: the snapshot of slot 32 and the blocks
    of slots 33..36. *)
Lemma loadHotStateBySlot_paths_witness :
  (@loadHotStateBySlot chain 36 evicted).2 = Ok (Some 3%nat)
  ∧ heap (@loadHotStateBySlot chain 36 evicted).1 !! 3%nat
    = Some {| st_slot := 36; st_body := [x01; x02; x03; x04] |}.
Proof.
  destruct (@loadHotStateBySlot_paths chain evicted 36 (heap evicted ++ [S32])
              (Some 2%nat) None S32 (R 4) 36)
    as [_ Hok]; try (vm_compute; reflexivity).
  destruct Hok as [_ Hreplay]; [vm_compute; reflexivity|].
  rewrite (Hreplay (block_at <$> [1; 2; 3; 4])
             (heap evicted ++
                [S32; {| st_slot := 36; st_body := [x01; x02; x03; x04] |}])
             (Some 3%nat) None);
    try (vm_compute; reflexivity).
  split; reflexivity.
Defined.

Lemma SaveState_hot_cached_witness :
  @SaveState chain (R 8) (Some 1%nat) saved = (saved, Ok tt).
Proof.
  apply (@SaveState_hot_cached chain saved (R 8) (Some 1%nat) S40).
  - reflexivity.
  - vm_compute. discriminate.
  - reflexivity.
Defined.

End ScenarioMore.

(** ** slasher/detection: the two offences and what detection returns *)

Section DetectionMore.

Import detection.

(** What it takes for [isSurrounding] to say yes: all four epochs are
    there, the first source is below the second and the first target above
    the second. *)
Lemma isSurrounding_true (a b : IndexedAttestation) :
  isSurrounding a b = Some true ↔
  ∃ sa sb ta tb : uint64,
    Data_Source_Epoch a = Some sa ∧ Data_Source_Epoch b = Some sb
    ∧ Data_Target_Epoch a = Some ta ∧ Data_Target_Epoch b = Some tb
    ∧ sa < sb ∧ tb < ta.
Proof.
  unfold isSurrounding. split.
  - destruct (Data_Source_Epoch a) as [sa|]; [|discriminate].
    destruct (Data_Source_Epoch b) as [sb|]; [|discriminate]. simpl.
    destruct (N.ltb_spec sa sb); [|discriminate].
    destruct (Data_Target_Epoch a) as [ta|]; [|discriminate].
    destruct (Data_Target_Epoch b) as [tb|]; [|discriminate]. simpl.
    intros [= Hlt]. apply N.ltb_lt in Hlt. eauto 10.
  - intros (sa & sb & ta & tb & -> & -> & -> & -> & Hs & Ht). simpl.
    apply N.ltb_lt in Hs, Ht. by rewrite Hs, Ht.
Qed.

Lemma Source_Epoch_of_Data (a b : IndexedAttestation) :
  Data a = Data b → Data_Source_Epoch a = Data_Source_Epoch b.
Proof. unfold Data_Source_Epoch. by intros ->. Qed.

(** X17.  Surrounding is a strict order on attestations: none surrounds
    itself, two never surround each other, and surrounding is transitive. *)
Theorem isSurrounding_strict_order (a b c : IndexedAttestation) :
  isSurrounding a a ≠ Some true
  ∧ (isSurrounding a b = Some true → isSurrounding b a = Some false)
  ∧ (isSurrounding a b = Some true → isSurrounding b c = Some true →
       isSurrounding a c = Some true).
Proof.
  split; [|split].
  - rewrite isSurrounding_true.
    intros (sa & sb & ta & tb & Ha & Hb & _ & _ & Hs & _).
    rewrite Ha in Hb. injection Hb as <-. lia.
  - rewrite isSurrounding_true.
    intros (sa & sb & ta & tb & Ha & Hb & _ & _ & Hs & _).
    unfold isSurrounding. rewrite Ha, Hb. simpl.
    destruct (N.ltb_spec sb sa); [lia|done].
  - rewrite !isSurrounding_true.
    intros (sa & sb & ta & tb & Ha & Hb & Hta & Htb & Hs & Ht).
    intros (sb' & sc & tb' & tc & Hb' & Hc & Htb' & Htc & Hs' & Ht').
    rewrite Hb in Hb'. injection Hb' as <-.
    rewrite Htb in Htb'. injection Htb' as <-.
    exists sa, sc, ta, tc. repeat split; try done; lia.
Qed.

Lemma isDoubleVote_comm (a b : IndexedAttestation) :
  isDoubleVote a b = isDoubleVote b a.
Proof.
  unfold isDoubleVote.
  destruct (decide (Data a = Data b)) as [Heq|Hne].
  - rewrite (bool_decide_eq_true_2 _ Heq).
    by rewrite (bool_decide_eq_true_2 (Data b = Data a)).
  - rewrite (bool_decide_eq_false_2 _ Hne).
    rewrite (bool_decide_eq_false_2 (Data b = Data a)) by congruence.
    simpl.
    destruct (Data_Target_Epoch a) as [ta|], (Data_Target_Epoch b) as [tb|];
      simpl; try done.
    by rewrite N.eqb_sym.
Qed.

(** X18.  Being a double vote does not depend on the order of the two
    attestations, panics included, and no attestation is a double vote
    with itself. *)
Theorem isDoubleVote_symmetric (a b : IndexedAttestation) :
  isDoubleVote a b = isDoubleVote b a ∧ isDoubleVote a a = Some false.
Proof.
  split; [apply isDoubleVote_comm|].
  unfold isDoubleVote. by rewrite bool_decide_eq_true_2.
Qed.

(** X19.  The two offences exclude each other: an attestation that
    surrounds another is not a double vote with it, in either order. *)
Theorem isSurrounding_not_isDoubleVote (a b : IndexedAttestation) :
  isSurrounding a b = Some true →
  isDoubleVote a b = Some false ∧ isDoubleVote b a = Some false.
Proof.
  intros Hsur.
  assert (isDoubleVote a b = Some false) as Hab.
  { apply isSurrounding_true in Hsur
      as (sa & sb & ta & tb & Ha & Hb & Hta & Htb & Hs & Ht).
    unfold isDoubleVote.
    rewrite bool_decide_eq_false_2.
    - simpl. rewrite Hta, Htb. simpl.
      destruct (N.eqb_spec ta tb); [lia|done].
    - intros Heq. apply Source_Epoch_of_Data in Heq.
      rewrite Ha, Hb in Heq. injection Heq as ->. lia. }
  split; [done|].
  by rewrite isDoubleVote_comm.
Qed.

Context `{!Collaborators}.

#[local] Arguments HashProto : simpl never.
#[local] Arguments detectDoubleVote : simpl never.
#[local] Arguments detectSurroundVotes : simpl never.

Lemma Intersection_singleton (indices : list uint64) (v : uint64) :
  (length (IntersectionUint64 indices [v]) =? 0)%nat = false ↔ v ∈ indices.
Proof.
  unfold IntersectionUint64. rewrite filter_cons, filter_nil.
  destruct (decide (v ∈ indices)); simpl; split; try done.
Qed.

(** A slashing that the loop of [detectDoubleVote] returns. *)
Lemma detectDoubleVote_loop_Some (incomingAtt : IndexedAttestation)
    (r : DetectionResult) (otherAtts : list IndexedAttestation)
    (s : AttesterSlashing) :
  detectDoubleVote_loop incomingAtt r otherAtts = Ok (Some s) →
  Attestation_1 s = incomingAtt
  ∧ Attestation_2 s ∈ otherAtts
  ∧ ValidatorIndex r ∈ AttestingIndices (Attestation_2 s)
  ∧ isDoubleVote incomingAtt (Attestation_2 s) = Some true.
Proof.
  induction otherAtts as [|att rest IH]; simpl; [discriminate|].
  assert (detectDoubleVote_loop incomingAtt r rest = Ok (Some s) →
          Attestation_1 s = incomingAtt
          ∧ Attestation_2 s ∈ att :: rest
          ∧ ValidatorIndex r ∈ AttestingIndices (Attestation_2 s)
          ∧ isDoubleVote incomingAtt (Attestation_2 s) = Some true) as Hrest.
  { intros Hrun. destruct (IH Hrun) as (? & ? & ? & ?).
    repeat split; try done. by apply list_elem_of_further. }
  destruct (Data att); [|done].
  destruct (length (IntersectionUint64 _ _) =? 0)%nat eqn:Hint; [done|].
  apply Intersection_singleton in Hint.
  destruct (isDoubleVote incomingAtt att) as [[]|] eqn:Hdv; try done.
  intros [= <-]. simpl. repeat split; try done. apply list_elem_of_here.
Qed.

(** When that loop finds nothing, no candidate is a double vote. *)
Lemma detectDoubleVote_loop_None (incomingAtt : IndexedAttestation)
    (r : DetectionResult) (otherAtts : list IndexedAttestation) :
  detectDoubleVote_loop incomingAtt r otherAtts = Ok None →
  ∀ att, att ∈ otherAtts → is_Some (Data att) →
    ValidatorIndex r ∈ AttestingIndices att →
    isDoubleVote incomingAtt att = Some false.
Proof.
  induction otherAtts as [|att rest IH]; simpl.
  { intros _ att Hin. by apply elem_of_nil in Hin. }
  intros Hrun att' Hin Hdata Hidx.
  apply elem_of_cons in Hin as [->|Hin].
  - destruct (Data att); [|by destruct Hdata].
    apply Intersection_singleton in Hidx. rewrite Hidx in Hrun.
    destruct (isDoubleVote incomingAtt att) as [[]|]; done.
  - revert Hrun.
    destruct (Data att); [|by intros; apply IH].
    destruct (length (IntersectionUint64 _ _) =? 0)%nat; [by intros; apply IH|].
    destruct (isDoubleVote incomingAtt att) as [[]|]; try done.
    by intros; apply IH.
Qed.

(** A slashing that the loop of [detectSurroundVotes] returns, and that it
    never returns without one. *)
Lemma detectSurroundVotes_loop_Ok (incomingAtt : IndexedAttestation)
    (r : DetectionResult) (otherAtts : list IndexedAttestation)
    (o : option AttesterSlashing) :
  detectSurroundVotes_loop incomingAtt r otherAtts = Ok o →
  ∃ s att, o = Some s
    ∧ att ∈ otherAtts
    ∧ ValidatorIndex r ∈ AttestingIndices att
    ∧ isSurrounding (Attestation_1 s) (Attestation_2 s) = Some true
    ∧ ((Attestation_1 s = incomingAtt ∧ Attestation_2 s = att)
       ∨ (Attestation_1 s = att ∧ Attestation_2 s = incomingAtt)).
Proof.
  induction otherAtts as [|att rest IH]; simpl; [discriminate|].
  assert (detectSurroundVotes_loop incomingAtt r rest = Ok o →
          ∃ s att0, o = Some s
            ∧ att0 ∈ att :: rest
            ∧ ValidatorIndex r ∈ AttestingIndices att0
            ∧ isSurrounding (Attestation_1 s) (Attestation_2 s) = Some true
            ∧ ((Attestation_1 s = incomingAtt ∧ Attestation_2 s = att0)
               ∨ (Attestation_1 s = att0 ∧ Attestation_2 s = incomingAtt)))
    as Hrest.
  { intros Hrun. destruct (IH Hrun) as (s & att0 & ? & ? & ? & ? & ?).
    exists s, att0. repeat split; try done. by apply list_elem_of_further. }
  destruct (Data att); [|done].
  destruct (length (IntersectionUint64 _ _) =? 0)%nat eqn:Hint; [done|].
  apply Intersection_singleton in Hint.
  destruct (isSurrounding incomingAtt att) as [[]|] eqn:Hsur; try done.
  - intros [= <-]. eexists _, att. split; [done|]. simpl.
    repeat split; try done; [apply list_elem_of_here|by left].
  - destruct (isSurrounding att incomingAtt) as [[]|] eqn:Hsur'; try done.
    intros [= <-]. eexists _, att. split; [done|]. simpl.
    repeat split; try done; [apply list_elem_of_here|by right].
Qed.

(** X20.  A slashing that [detectDoubleVote] returns pairs the incoming
    attestation with one read from the store for the result's epoch and
    signature prefix, which the result's validator signed and which is a
    double vote with the incoming one. *)
Theorem detectDoubleVote_sound (db : SlasherDB) (incomingAtt : IndexedAttestation)
    (detectionResult : option DetectionResult) (s : AttesterSlashing) :
  detectDoubleVote db incomingAtt detectionResult = Ok (Some s) →
  ∃ r, detectionResult = Some r
    ∧ Kind r = DoubleVote
    ∧ Attestation_1 s = incomingAtt
    ∧ Attestation_2 s
      ∈ (IndexedAttestationsWithPrefix db (SlashableEpoch r) (SigBytes r)).1
    ∧ ValidatorIndex r ∈ AttestingIndices (Attestation_2 s)
    ∧ isDoubleVote incomingAtt (Attestation_2 s) = Some true.
Proof.
  unfold detectDoubleVote. destruct detectionResult as [r|]; [|discriminate].
  destruct (decide (Kind r = DoubleVote)) as [Hkind|Hkind].
  2: { by rewrite (bool_decide_eq_false_2 _ Hkind). }
  rewrite (bool_decide_eq_true_2 _ Hkind). simpl.
  destruct (IndexedAttestationsWithPrefix _ _ _) as [otherAtts [e|]] eqn:Hread;
    [discriminate|].
  intros Hloop. apply detectDoubleVote_loop_Some in Hloop as (? & ? & ? & ?).
  exists r. rewrite Hread. repeat split; done.
Qed.

(** X21.  When [detectDoubleVote] returns neither slashing nor error for a
    double-vote result, none of the stored attestations that carry data
    and the validator's index is a double vote with the incoming one. *)
Theorem detectDoubleVote_complete (db : SlasherDB)
    (incomingAtt : IndexedAttestation) (r : DetectionResult) :
  Kind r = DoubleVote →
  detectDoubleVote db incomingAtt (Some r) = Ok None →
  (IndexedAttestationsWithPrefix db (SlashableEpoch r) (SigBytes r)).2 = None
  ∧ ∀ att,
      att ∈ (IndexedAttestationsWithPrefix db (SlashableEpoch r) (SigBytes r)).1 →
      is_Some (Data att) →
      ValidatorIndex r ∈ AttestingIndices att →
      isDoubleVote incomingAtt att = Some false.
Proof.
  intros Hkind. unfold detectDoubleVote.
  rewrite (bool_decide_eq_true_2 _ Hkind). simpl.
  destruct (IndexedAttestationsWithPrefix _ _ _) as [otherAtts [e|]];
    [discriminate|].
  intros Hloop. split; [done|]. by apply detectDoubleVote_loop_None.
Qed.

(** X22.  In a slashing that [detectSurroundVotes] returns the first
    attestation surrounds the second; one of the two is the incoming
    attestation and the other was read from the store and carries the
    validator's index. *)
Theorem detectSurroundVotes_sound (db : SlasherDB)
    (incomingAtt : IndexedAttestation)
    (detectionResult : option DetectionResult) (s : AttesterSlashing) :
  detectSurroundVotes db incomingAtt detectionResult = Ok (Some s) →
  ∃ r att, detectionResult = Some r
    ∧ Kind r = SurroundVote
    ∧ att ∈ (IndexedAttestationsWithPrefix db (SlashableEpoch r) (SigBytes r)).1
    ∧ ValidatorIndex r ∈ AttestingIndices att
    ∧ isSurrounding (Attestation_1 s) (Attestation_2 s) = Some true
    ∧ ((Attestation_1 s = incomingAtt ∧ Attestation_2 s = att)
       ∨ (Attestation_1 s = att ∧ Attestation_2 s = incomingAtt)).
Proof.
  unfold detectSurroundVotes. destruct detectionResult as [r|]; [|discriminate].
  destruct (decide (Kind r = SurroundVote)) as [Hkind|Hkind].
  2: { by rewrite (bool_decide_eq_false_2 _ Hkind). }
  rewrite (bool_decide_eq_true_2 _ Hkind). simpl.
  destruct (IndexedAttestationsWithPrefix _ _ _) as [otherAtts [e|]] eqn:Hread;
    [discriminate|].
  intros Hloop. apply detectSurroundVotes_loop_Ok in Hloop
    as (s' & att & [= <-] & ? & ? & ? & ?).
  exists r, att. rewrite Hread. repeat split; done.
Qed.

(** X23.  For a surround-vote result [detectSurroundVotes] never returns
    "nothing found": it returns a slashing, or an error (the "unexpected
    false positive" when no stored attestation fits), or it panics. *)
Theorem detectSurroundVotes_never_nil (db : SlasherDB)
    (incomingAtt : IndexedAttestation) (r : DetectionResult) :
  Kind r = SurroundVote →
  detectSurroundVotes db incomingAtt (Some r) ≠ Ok None
  ∧ ((IndexedAttestationsWithPrefix db (SlashableEpoch r) (SigBytes r)) = ([], None) →
       detectSurroundVotes db incomingAtt (Some r)
       = Err (errNew "unexpected false positive in surround vote detection")).
Proof.
  intros Hkind. unfold detectSurroundVotes.
  rewrite (bool_decide_eq_true_2 _ Hkind). simpl. split.
  - destruct (IndexedAttestationsWithPrefix _ _ _) as [otherAtts [e|]];
      [discriminate|].
    intros Hloop. apply detectSurroundVotes_loop_Ok in Hloop
      as (s' & att & [=] & _).
  - by intros ->.
Qed.

(** A slashing is genuine for an attestation when it involves the
    attestation and its two attestations are a double vote or the first
    surrounds the second. *)
Local Abbreviation genuine := (λ (att : IndexedAttestation) (s : AttesterSlashing),
  (Attestation_1 s = att ∨ Attestation_2 s = att)
  ∧ (isDoubleVote (Attestation_1 s) (Attestation_2 s) = Some true
     ∨ isSurrounding (Attestation_1 s) (Attestation_2 s) = Some true)).

Lemma detect_loop_genuine (db : SlasherDB) (att : IndexedAttestation)
    (results : list (option DetectionResult)) :
  ∀ slashings out : list AttesterSlashing,
    Forall (genuine att) slashings →
    detect_loop db att results slashings = Ok out →
    Forall (genuine att) out.
Proof.
  induction results as [|[r|] rest IH]; intros slashings out Hgen; simpl;
    [by intros [= <-]| |discriminate].
  destruct (Kind r) eqn:Hkind.
  - destruct (detectDoubleVote db att (Some r)) as [[s|]|e|] eqn:Hdet;
      try discriminate; [|by apply IH].
    apply IH. simpl. apply Forall_app. split; [done|]. apply Forall_singleton.
    revert Hdet. unfold detectDoubleVote.
    rewrite (bool_decide_eq_true_2 _ Hkind). simpl.
    destruct (IndexedAttestationsWithPrefix _ _ _) as [otherAtts [e|]];
      [discriminate|].
    intros Hloop. apply detectDoubleVote_loop_Some in Hloop
      as (H1 & _ & _ & Hdv).
    rewrite H1. split; [by left|by left].
  - destruct (detectSurroundVotes db att (Some r)) as [[s|]|e|] eqn:Hdet;
      try discriminate; [|by apply IH].
    apply IH. simpl. apply Forall_app. split; [done|]. apply Forall_singleton.
    revert Hdet. unfold detectSurroundVotes.
    rewrite (bool_decide_eq_true_2 _ Hkind). simpl.
    destruct (IndexedAttestationsWithPrefix _ _ _) as [otherAtts [e|]];
      [discriminate|].
    intros Hloop. apply detectSurroundVotes_loop_Ok in Hloop
      as (s' & att' & [= <-] & _ & _ & Hsur & [[H1 _]|[_ H2]]).
    + split; [by left|by right].
    + split; [by right|by right].
  - by apply IH.
Qed.

(** X24.  Every slashing [DetectAttesterSlashings] returns is genuine: the
    incoming attestation is one of its two attestations, and the two are a
    double vote or the first surrounds the second. *)
Theorem DetectAttesterSlashings_sound (db db' : SlasherDB)
    (att : IndexedAttestation) (slashingList : list AttesterSlashing) :
  DetectAttesterSlashings db att = (db', Ok slashingList) →
  ∀ s, s ∈ slashingList →
    (Attestation_1 s = att ∨ Attestation_2 s = att)
    ∧ (isDoubleVote (Attestation_1 s) (Attestation_2 s) = Some true
       ∨ isSurrounding (Attestation_1 s) (Attestation_2 s) = Some true).
Proof.
  unfold DetectAttesterSlashings.
  destruct (DetectSlashingsForAttestation att) as [results [e|]];
    [discriminate|].
  destruct (length results =? 0)%nat.
  { intros [= _ <-] s Hin. by apply elem_of_nil in Hin. }
  destruct (detect_loop db att results []) as [slashings|e|] eqn:Hdetect;
    try discriminate.
  destruct (dedup_loop slashings ∅ []) as [out|e|] eqn:Hdedup;
    try discriminate.
  destruct (SaveAttesterSlashings db Active slashings) as [db1 [e|]];
    [discriminate|].
  intros [= _ <-] s Hin.
  apply dedup_loop_subseteq in Hdedup. apply Hdedup in Hin. simpl in Hin.
  apply detect_loop_genuine in Hdetect; [|constructor].
  by apply (proj1 (Forall_forall _ _) Hdetect).
Qed.

Local Abbreviation hash_of := (λ ss : AttesterSlashing, (HashProto (Some ss)).1).



End DetectionMore.

(** ** Detection on the two scenarios *)

Section DetectionScenarios.

Import detection.

(** [outer] surrounds [middle], which surrounds [inner]. *)
Lemma isSurrounding_strict_order_witness :
  isSurrounding surround_vote.outer surround_vote.inner = Some true
  ∧ isSurrounding surround_vote.middle surround_vote.outer = Some false.
Proof.
  destruct (isSurrounding_strict_order surround_vote.outer surround_vote.middle
              surround_vote.inner) as (_ & Hasym & Htrans).
  split.
  - apply Htrans; reflexivity.
  - apply Hasym. reflexivity.
Defined.

Lemma isSurrounding_not_isDoubleVote_witness :
  isDoubleVote surround_vote.outer surround_vote.middle = Some false
  ∧ isDoubleVote surround_vote.middle surround_vote.outer = Some false.
Proof.
  apply (isSurrounding_not_isDoubleVote surround_vote.outer surround_vote.middle).
  reflexivity.
Defined.

Lemma detectDoubleVote_sound_witness :
  ∃ r, Kind r = DoubleVote
    ∧ Attestation_1 double_vote.slashing = double_vote.incoming
    ∧ isDoubleVote double_vote.incoming (Attestation_2 double_vote.slashing)
      = Some true.
Proof.
  destruct (@detectDoubleVote_sound double_vote.service [] double_vote.incoming
              (Some {| ValidatorIndex := 7; SlashableEpoch := 5;
                       Kind := DoubleVote; SigBytes := [x01] |})
              double_vote.slashing)
    as (r & _ & Hkind & H1 & _ & _ & Hdv); [reflexivity|].
  exists r. split; [exact Hkind|]. split; [exact H1|exact Hdv].
Defined.

(** The stored attestation arrives again: same data, so no double vote. *)
Lemma detectDoubleVote_complete_witness :
  @detectDoubleVote double_vote.service [] double_vote.stored
    (Some {| ValidatorIndex := 7; SlashableEpoch := 5;
             Kind := DoubleVote; SigBytes := [x01] |}) = Ok None
  ∧ isDoubleVote double_vote.stored double_vote.stored = Some false.
Proof.
  split; [reflexivity|].
  destruct (@detectDoubleVote_complete double_vote.service [] double_vote.stored
              {| ValidatorIndex := 7; SlashableEpoch := 5;
                 Kind := DoubleVote; SigBytes := [x01] |})
    as [_ Hnone]; [reflexivity|reflexivity|].
  apply Hnone.
  - apply list_elem_of_here.
  - eexists. reflexivity.
  - apply list_elem_of_here.
Defined.

(** The incoming [outer] surrounds the stored [middle]; the incoming
    [inner] is surrounded by it, and then the stored one comes first. *)
Lemma detectSurroundVotes_sound_witness :
  @detectSurroundVotes surround_vote.service [] surround_vote.inner
    (Some surround_vote.result)
  = Ok (Some {| Attestation_1 := surround_vote.middle;
                Attestation_2 := surround_vote.inner |})
  ∧ isSurrounding surround_vote.middle surround_vote.inner = Some true.
Proof.
  assert (Hrun :
    @detectSurroundVotes surround_vote.service [] surround_vote.inner
      (Some surround_vote.result)
    = Ok (Some {| Attestation_1 := surround_vote.middle;
                  Attestation_2 := surround_vote.inner |})) by reflexivity.
  split; [exact Hrun|].
  destruct (@detectSurroundVotes_sound surround_vote.service []
              surround_vote.inner (Some surround_vote.result) _ Hrun)
    as (r & att & _ & _ & _ & _ & Hsur & _).
  exact Hsur.
Defined.

Lemma detectSurroundVotes_never_nil_witness :
  @detectSurroundVotes surround_vote.service_empty [] surround_vote.outer
    (Some surround_vote.result)
  = Err (errNew "unexpected false positive in surround vote detection").
Proof.
  destruct (@detectSurroundVotes_never_nil surround_vote.service_empty []
              surround_vote.outer surround_vote.result)
    as [_ Hempty]; [reflexivity|].
  apply Hempty. reflexivity.
Defined.

Lemma DetectAttesterSlashings_sound_witness :
  (Attestation_1 double_vote.slashing = double_vote.incoming
   ∨ Attestation_2 double_vote.slashing = double_vote.incoming)
  ∧ (isDoubleVote (Attestation_1 double_vote.slashing)
       (Attestation_2 double_vote.slashing) = Some true
     ∨ isSurrounding (Attestation_1 double_vote.slashing)
         (Attestation_2 double_vote.slashing) = Some true).
Proof.
  apply (@DetectAttesterSlashings_sound double_vote.service []
           [(Active, double_vote.slashing); (Active, double_vote.slashing)]
           double_vote.incoming [double_vote.slashing]).
  - vm_compute. reflexivity.
  - apply list_elem_of_here.
Defined.


End DetectionScenarios.
